(** * The session layer of the pogo client (package [api], file [session.go])

    A shallow embedding of [api/session.go] and the properties of its
    specification.  A [Session] relies on code that lives outside the
    file: the authentication provider ([auth.Provider], a Go interface),
    the RPC client ([rpc.Client]) and two libraries, the spatial index
    ([s2]) and the protobuf runtime ([proto]).  Each of them
    is an interface here (a type class), so every statement holds for all
    their implementations; [Module Fixture] at the end of the definitions
    gives small implementations on which the statements are run. *)

From Stdlib Require Import ZArith String Floats.
From stdpp Require Import base tactics option list vector gmap strings.

Local Open Scope string_scope.
Local Open Scope list_scope.
Local Open Scope Z_scope.

(** ** Machine integers *)

(** Conversions to Go's fixed-width integers, on mathematical integers. *)
Definition uint64 (z : Z) : Z := z mod 2 ^ 64.
Definition int64 (z : Z) : Z := (z + 2 ^ 63) mod 2 ^ 64 - 2 ^ 63.
Definition int32 (z : Z) : Z := (z + 2 ^ 31) mod 2 ^ 32 - 2 ^ 31.

(** ** Constants of the package *)

Definition defaultURL : string := "https://pgorelease.nianticlabs.com/plfe/rpc".
Definition downloadSettingsHash : string := "05daf51635c82611d1aac95c0b051d3ec088a930".
Definition cellIDLevel : Z := 15.

(** ** Errors and panics *)

(** Go's [error] values.  [RequestError] is the value [&RequestError{}] and
    [Errorf msg] the value [fmt.Errorf(msg)], the two errors the file
    builds itself; [Foreign] stands for every error value handed in by a
    collaborator or by the status classifier, told apart by its text. *)
Inductive error : Type :=
  | RequestError
  | Errorf (msg : string)
  | Foreign (text : string).

#[global] Instance error_eq_dec : EqDecision error.
Proof. solve_decision. Defined.

(** The run-time panics the file can raise. *)
Inductive panic : Type :=
  | NilDereference
  | IndexOutOfRange (index len : nat).

(** A computation without side effects that may panic. *)
Inductive result (A : Type) : Type :=
  | Ok (a : A)
  | Panicked (p : panic).
Arguments Ok {A} a.
Arguments Panicked {A} p.

(** [l[i]] on a slice. *)
Definition index {A : Type} (l : list A) (i : nat) : result A :=
  match l !! i with
  | Some x => Ok x
  | None => Panicked (IndexOutOfRange i (length l))
  end.

(** ** Data *)

(** Location consists of coordinates in longitude, latitude and altitude. *)
Record Location : Type := {
  Lon : float;
  Lat : float;
  Alt : float
}.

(** ** Package [protos]: the wire messages

    Field names are Go's; a name that two structs share carries its
    struct's name in front. *)
Module protos.

(** The members of [protos.RequestType] the file names. *)
Inductive RequestType : Type :=
  | RequestType_GET_MAP_OBJECTS
  | RequestType_GET_PLAYER
  | RequestType_GET_HATCHED_EGGS
  | RequestType_GET_INVENTORY
  | RequestType_CHECK_AWARDED_BADGES
  | RequestType_DOWNLOAD_SETTINGS.

#[global] Instance RequestType_eq_dec : EqDecision RequestType.
Proof. solve_decision. Defined.

(** A [RequestMessage] left out of a literal is the empty byte slice. *)
Record Request : Type := {
  Request_RequestType : RequestType;
  Request_RequestMessage : list Byte.byte
}.

Record RequestEnvelope_AuthInfo_JWT : Type := {
  Contents : string;
  Unknown2 : Z
}.

Record RequestEnvelope_AuthInfo : Type := {
  Provider : string;
  Token : RequestEnvelope_AuthInfo_JWT
}.

(** The fields of the request envelope that [Call] fills. *)
Record RequestEnvelope : Type := {
  RequestId : Z;
  StatusCode : Z;
  Unknown12 : Z;
  Longitude : float;
  Latitude : float;
  Altitude : float;
  AuthInfo : RequestEnvelope_AuthInfo;
  Requests : list Request
}.

(** The fields of the response envelope that the session reads. *)
Record ResponseEnvelope : Type := {
  ApiUrl : string;
  ResponseEnvelope_StatusCode : Z;
  Returns : list (list Byte.byte)
}.

(** The request messages the file marshals. *)
Record GetMapObjectsMessage : Type := {
  CellId : list Z;
  SinceTimestampMs : list Z;
  GetMapObjectsMessage_Longitude : float;
  GetMapObjectsMessage_Latitude : float
}.

Record GetInventoryMessage : Type := {
  LastTimestampMs : Z
}.

Record DownloadSettingsMessage : Type := {
  Hash : string
}.

End protos.

(** ** Collaborators *)

(** Package [auth]: the [Provider] interface.  Every method may change the
  provider, so each takes the provider's state and gives the new one
  back.  [Login]'s first result is never looked at by the session. *)
Module auth.
Class Provider (P : Type) : Type := {
  Login : P -> P * (string * option error);
  GetProviderString : P -> P * string;
  GetAccessToken : P -> P * string
}.
End auth.

(** Package [rpc]: [NewClient] and the blocking round trip [Request] of
  [*rpc.Client]. *)
Module rpc.
Class Client (R : Type) : Type := {
  NewClient : R;
  Request : R -> string -> protos.RequestEnvelope ->
            R * (option protos.ResponseEnvelope * option error)
}.
End rpc.

(** Package [s2], as far as the file calls it.  A [CellID] is a [uint64];
  [EdgeNeighbors] returns the Go array [[4]CellID]. *)
Module s2.
Class Lib : Type := {
  LatLng : Type;
  LatLngFromDegrees : float -> float -> LatLng;
  CellIDFromLatLng : LatLng -> Z;
  Parent : Z -> Z -> Z;
  EdgeNeighbors : Z -> vec Z 4
}.
End s2.

(** Package [proto]: what the runtime does at a message type [T].
  [Zero] is the message [&T{}]; [Unmarshal buf m] gives the message as
  the decoder leaves it, together with the decoder's error. *)
Module proto.
Class Message (T : Type) : Type := {
  Zero : T;
  Marshal : T -> list Byte.byte * option error;
  Unmarshal : list Byte.byte -> T -> T * option error
}.
End proto.

(** ** Package [api] *)

Section Session.

(** The collaborators: a provider type [P], a client type [R], the spatial
    index, the protobuf runtime at the six message types of the file, and
    the status classifier [GetErrorFromStatus], a function of package
    [api] that lives in another file. *)
Context {P R : Type} {the_provider : auth.Provider P} {the_client : rpc.Client R}
        {the_index : s2.Lib}.
Context {GetMapObjectsResponse GetPlayerResponse GetInventoryResponse : Type}.
Context {map_objects : proto.Message GetMapObjectsResponse}
        {player_profile : proto.Message GetPlayerResponse}
        {inventory_items : proto.Message GetInventoryResponse}.
Context {map_query : proto.Message protos.GetMapObjectsMessage}
        {inventory_query : proto.Message protos.GetInventoryMessage}
        {settings_query : proto.Message protos.DownloadSettingsMessage}.
Variable GetErrorFromStatus : Z -> option error.

(** A pointer to an object of a collaborator is an address in the store of
    the collaborator's objects. *)
Definition addr : Type := positive.

(** Session is used to communicate with the Pokémon Go API.  [location] is
    Go's [*Location], [None] being the nil pointer; [rpc] and [provider]
    point into the stores of [World]. *)
Record Session : Type := {
  location : option Location;
  url : string;
  rpc : addr;
  provider : addr;
  debug : bool
}.

(** A line written by [log.Println]: the envelope handed to
    [proto.MarshalTextString]. *)
Inductive LogLine : Type :=
  | LogRequest (e : protos.RequestEnvelope)
  | LogResponse (e : option protos.ResponseEnvelope).

(** What a method of [*Session] can read and change: the struct behind the
    receiver, the objects of the collaborators, the wall clock in seconds
    ([time.Now().Unix()]), the standard logger's output, and [wire], the
    round trips made so far (the URL and the envelope of each call of
    [rpc.Request], oldest first). *)
Record World : Type := {
  self : Session;
  providers : gmap addr P;
  clients : gmap addr R;
  clock : Z;
  stdlog : list LogLine;
  wire : list (string * protos.RequestEnvelope)
}.

Definition set_self (s : Session) (w : World) : World :=
  {| self := s; providers := providers w; clients := clients w;
     clock := clock w; stdlog := stdlog w; wire := wire w |}.

Definition set_providers (ps : gmap addr P) (w : World) : World :=
  {| self := self w; providers := ps; clients := clients w;
     clock := clock w; stdlog := stdlog w; wire := wire w |}.

Definition set_clients (cs : gmap addr R) (w : World) : World :=
  {| self := self w; providers := providers w; clients := cs;
     clock := clock w; stdlog := stdlog w; wire := wire w |}.

Definition set_stdlog (l : list LogLine) (w : World) : World :=
  {| self := self w; providers := providers w; clients := clients w;
     clock := clock w; stdlog := l; wire := wire w |}.

Definition set_wire (l : list (string * protos.RequestEnvelope)) (w : World) : World :=
  {| self := self w; providers := providers w; clients := clients w;
     clock := clock w; stdlog := stdlog w; wire := l |}.

(** *** The monad of session methods: state and panics *)

Inductive outcome (A : Type) : Type :=
  | Done (a : A) (w : World)
  | Panic (p : panic) (w : World).
Arguments Done {A} a w.
Arguments Panic {A} p w.

Definition M (A : Type) : Type := World -> outcome A.

#[global] Instance M_ret : MRet M := fun A a w => Done a w.

#[global] Instance M_bind : MBind M := fun A B f m w =>
  match m w with
  | Done a w' => f a w'
  | Panic p w' => Panic p w'
  end.

(** The world an outcome ends in. *)
Definition final {A : Type} (o : outcome A) : World :=
  match o with
  | Done _ w => w
  | Panic _ w => w
  end.

Definition get_self : M Session := fun w => Done (self w) w.

Definition lift {A : Type} (r : result A) : M A := fun w =>
  match r with
  | Ok a => Done a w
  | Panicked p => Panic p w
  end.

(** [*p] for a pointer [p]. *)
Definition deref {A : Type} (p : option A) : result A :=
  match p with
  | Some a => Ok a
  | None => Panicked NilDereference
  end.

(** A call of method [f] through [s.provider]; through a nil interface it
    panics. *)
Definition via_provider {A : Type} (f : P -> P * A) : M A := fun w =>
  match providers w !! provider (self w) with
  | Some p => let (p', a) := f p in
              Done a (set_providers (<[provider (self w) := p']> (providers w)) w)
  | None => Panic NilDereference w
  end.

(** [s.rpc.Request(url, envelope)]: the round trip goes on the wire and
    the client moves on.  A session built by [NewSession] has a client;
    without one the call is taken to panic. *)
Definition rpc_Request (u : string) (e : protos.RequestEnvelope)
  : M (option protos.ResponseEnvelope * option error) := fun w =>
  match clients w !! rpc (self w) with
  | Some c => let (c', r) := rpc.Request c u e in
              Done r (set_wire (wire w ++ [(u, e)])
                       (set_clients (<[rpc (self w) := c']> (clients w)) w))
  | None => Panic NilDereference w
  end.

Definition log_Println (l : LogLine) : M unit := fun w =>
  Done tt (set_stdlog (stdlog w ++ [l]) w).

Definition time_Now_Unix : M Z := fun w => Done (clock w) w.

(** *** The functions of [session.go] *)

Definition generateRequests : list protos.Request := [].

Definition getCellIDs (location : option Location) : result (list Z) :=
  match deref location with
  | Panicked p => Panicked p
  | Ok l =>
    let origin :=
      s2.Parent (s2.CellIDFromLatLng (s2.LatLngFromDegrees (Lat l) (Lon l))) cellIDLevel in
    let cellIDs := [] in
    let cellIDs := cellIDs ++ [uint64 origin] in
    let cellIDs :=
      foldl (fun cellIDs cellID => cellIDs ++ [uint64 cellID]) cellIDs
            (vec_to_list (s2.EdgeNeighbors origin)) in
    Ok cellIDs
  end.

(** NewSession constructs a Pokémon Go RPC API client: [rpc.NewClient()]
    allocates the client, and the struct is returned. *)
Definition NewSession (provider : addr) (location : option Location) (debug : bool)
  : M Session := fun w =>
  let c := fresh (dom (clients w)) in
  Done {| location := location; url := ""; rpc := c; provider := provider; debug := debug |}
       (set_clients (<[c := rpc.NewClient]> (clients w)) w).

Definition setURL (urlToken : string) : M unit := fun w =>
  let s := self w in
  Done tt (set_self {| location := location s; url := "https://" +:+ urlToken +:+ "/rpc";
                       rpc := rpc s; provider := provider s; debug := debug s |} w).

Definition getURL (s : Session) : string :=
  if decide (url s <> "") then url s else defaultURL.

(** Call queries the Pokémon Go API through RPC protobuf. *)
Definition Call (requests : list protos.Request)
  : M (option protos.ResponseEnvelope * option error) :=
  providerString ← via_provider auth.GetProviderString;
  accessToken ← via_provider auth.GetAccessToken;
  let auth := {| protos.Provider := providerString;
                 protos.Token := {| protos.Contents := accessToken;
                                    protos.Unknown2 := int32 59 |} |} in
  s ← get_self;
  l ← lift (deref (location s));
  let requestEnvelope :=
    {| protos.RequestId := uint64 8145806132888207460;
       protos.StatusCode := int32 2;
       protos.Unknown12 := int64 989;
       protos.Longitude := Lon l;
       protos.Latitude := Lat l;
       protos.Altitude := Alt l;
       protos.AuthInfo := auth;
       protos.Requests := requests |} in
  (if debug s then log_Println (LogRequest requestEnvelope) else mret tt);;
  s ← get_self;
  '(responseEnvelope, err) ← rpc_Request (getURL s) requestEnvelope;
  s ← get_self;
  (if debug s then log_Println (LogResponse responseEnvelope) else mret tt);;
  mret (responseEnvelope, err).

(** Init initializes the client by performing full authentication. *)
Definition Init : M (option error) :=
  '(_, err) ← via_provider auth.Login;
  match err with
  | Some e => mret (Some e)
  | None =>
    let requests := generateRequests in
    let requests := requests ++
      [{| protos.Request_RequestType := protos.RequestType_GET_PLAYER;
          protos.Request_RequestMessage := [] |}] in
    let requests := requests ++
      [{| protos.Request_RequestType := protos.RequestType_GET_HATCHED_EGGS;
          protos.Request_RequestMessage := [] |}] in
    let requests := requests ++
      [{| protos.Request_RequestType := protos.RequestType_GET_INVENTORY;
          protos.Request_RequestMessage := [] |}] in
    let requests := requests ++
      [{| protos.Request_RequestType := protos.RequestType_CHECK_AWARDED_BADGES;
          protos.Request_RequestMessage := [] |}] in
    let '(settingsMessage, _) :=
      proto.Marshal {| protos.Hash := downloadSettingsHash |} in
    let requests := requests ++
      [{| protos.Request_RequestType := protos.RequestType_DOWNLOAD_SETTINGS;
          protos.Request_RequestMessage := settingsMessage |}] in
    '(response, err) ← Call requests;
    match err with
    | Some e => mret (Some e)
    | None =>
      response ← lift (deref response);
      let url := protos.ApiUrl response in
      if decide (url = "") then
        mret (Some (Errorf "Could not initialize session, the service might be down"))
      else
        setURL url;;
        mret None
    end
  end.

(** Announce publishes the player's presence and returns the map
    environment. *)
Definition Announce : M (option GetMapObjectsResponse * option error) :=
  let mapObjects : option GetMapObjectsResponse := None in
  s ← get_self;
  cellIDs ← lift (getCellIDs (location s));
  now ← time_Now_Unix;
  let lastTimestamp := int64 (now * 1000) in
  let requests := generateRequests in
  l ← lift (deref (location s));
  let '(getMapObjectsMessage, _) :=
    proto.Marshal {| protos.CellId := cellIDs;
                     protos.SinceTimestampMs := replicate (length cellIDs) 0;
                     protos.GetMapObjectsMessage_Longitude := Lon l;
                     protos.GetMapObjectsMessage_Latitude := Lat l |} in
  let requests := requests ++
    [{| protos.Request_RequestType := protos.RequestType_GET_MAP_OBJECTS;
        protos.Request_RequestMessage := getMapObjectsMessage |}] in
  let requests := requests ++
    [{| protos.Request_RequestType := protos.RequestType_GET_HATCHED_EGGS;
        protos.Request_RequestMessage := [] |}] in
  let '(getInventoryMessage, _) :=
    proto.Marshal {| protos.LastTimestampMs := lastTimestamp |} in
  let requests := requests ++
    [{| protos.Request_RequestType := protos.RequestType_GET_INVENTORY;
        protos.Request_RequestMessage := getInventoryMessage |}] in
  let requests := requests ++
    [{| protos.Request_RequestType := protos.RequestType_CHECK_AWARDED_BADGES;
        protos.Request_RequestMessage := [] |}] in
  let '(settingsMessage, _) :=
    proto.Marshal {| protos.Hash := downloadSettingsHash |} in
  let requests := requests ++
    [{| protos.Request_RequestType := protos.RequestType_DOWNLOAD_SETTINGS;
        protos.Request_RequestMessage := settingsMessage |}] in
  '(response, err) ← Call requests;
  match err with
  | Some _ => mret (mapObjects, Some RequestError)
  | None =>
    let mapObjects : GetMapObjectsResponse := proto.Zero in
    response ← lift (deref response);
    payload ← lift (index (protos.Returns response) 0);
    let '(mapObjects, _) := proto.Unmarshal payload mapObjects in
    mret (Some mapObjects, GetErrorFromStatus (protos.ResponseEnvelope_StatusCode response))
  end.

(** GetPlayer returns the current player profile. *)
Definition GetPlayer : M (option GetPlayerResponse * option error) :=
  let player : option GetPlayerResponse := None in
  let requests := generateRequests in
  let requests := requests ++
    [{| protos.Request_RequestType := protos.RequestType_GET_PLAYER;
        protos.Request_RequestMessage := [] |}] in
  '(response, err) ← Call requests;
  match err with
  | Some e => mret (player, Some e)
  | None =>
    let player : GetPlayerResponse := proto.Zero in
    response ← lift (deref response);
    payload ← lift (index (protos.Returns response) 0);
    let '(player, _) := proto.Unmarshal payload player in
    mret (Some player, None)
  end.

(** GetInventory returns the player items. *)
Definition GetInventory : M (option GetInventoryResponse * option error) :=
  let inventory : option GetInventoryResponse := None in
  let requests := generateRequests in
  let requests := requests ++
    [{| protos.Request_RequestType := protos.RequestType_GET_INVENTORY;
        protos.Request_RequestMessage := [] |}] in
  '(response, err) ← Call requests;
  match err with
  | Some e => mret (inventory, Some e)
  | None =>
    let inventory : GetInventoryResponse := proto.Zero in
    response ← lift (deref response);
    payload ← lift (index (protos.Returns response) 0);
    let '(inventory, _) := proto.Unmarshal payload inventory in
    mret (Some inventory, None)
  end.

(** *** Vocabulary of the statements *)

(** [keeps proj m]: whatever [m] does, normally or by a panic, it leaves
    the part [proj] of the world as it found it. *)
Definition keeps {A X : Type} (proj : World -> X) (m : M A) : Prop :=
  forall w, proj (final (m w)) = proj w.

(** [round_trip m w u e r]: run from [w], the method [m] makes one round
    trip, sending the envelope [e] to the URL [u], and the transport's
    answer to it is [r]. *)
Definition round_trip {A : Type} (m : M A) (w : World) (u : string)
    (e : protos.RequestEnvelope) (r : option protos.ResponseEnvelope * option error) : Prop :=
  wire (final (m w)) = wire w ++ [(u, e)] /\
  exists c, clients w !! rpc (self w) = Some c /\ (rpc.Request c u e).2 = r.

(** [at_most_one_trip m]: whatever [m] does, it leaves the wire as it is
    or adds one round trip to it, to the URL the session resolves to when
    [m] starts. *)
Definition at_most_one_trip {A : Type} (m : M A) : Prop :=
  forall w, wire (final (m w)) = wire w \/
            exists env, wire (final (m w)) = wire w ++ [(getURL (self w), env)].

(** [quiet m]: on a session whose debug flag is off, [m] writes nothing
    to the log and leaves the flag off. *)
Definition quiet {A : Type} (m : M A) : Prop :=
  forall w, debug (self w) = false ->
            stdlog (final (m w)) = stdlog w /\ debug (self (final (m w))) = false.

(** [logs_its_trip m]: when [m] makes a round trip, what it has logged by
    the end is, on a session with the debug flag on, the envelope sent
    followed by the response received, and nothing with the flag off. *)
Definition logs_its_trip {A : Type} (m : M A) : Prop :=
  forall w u env r,
    round_trip m w u env r ->
    stdlog (final (m w)) =
      stdlog w ++ (if debug (self w) then [LogRequest env; LogResponse r.1] else []).

End Session.

Arguments World : clear implicits.
Arguments outcome : clear implicits.
Arguments Done {P R A} a w.
Arguments Panic {P R A} p w.
Arguments M : clear implicits.
Arguments Announce {P R _ _ _} GetMapObjectsResponse {_ _ _ _} GetErrorFromStatus _.
Arguments GetPlayer {P R _ _} GetPlayerResponse {_} _.
Arguments GetInventory {P R _ _} GetInventoryResponse {_} _.

(** ** Implementations to run the session on *)

Module Fixture.

(** A provider that hands out a longer token at each login, or refuses to
    log in when [refuses] holds an error. *)
Record account : Type := {
  refuses : option error;
  token : string;
  logins : nat
}.

#[export] Instance account_Provider : auth.Provider account := {
  Login p :=
    match refuses p with
    | Some e => (p, ("", Some e))
    | None =>
      let t := token p +:+ "+" in
      ({| refuses := None; token := t; logins := S (logins p) |}, (t, None))
    end;
  GetProviderString p := (p, "ptc");
  GetAccessToken p := (p, token p)
}.

(** A client that answers from a script, one reply for each round trip, and
    fails once the script is used up. *)
Definition script : Type := list (option protos.ResponseEnvelope * option error).

#[export] Instance script_Client : rpc.Client script := {
  NewClient := [];
  Request c _ _ :=
    match c with
    | r :: c' => (c', r)
    | [] => ([], (None, Some (Foreign "connection refused")))
    end
}.

(** A stand-in for the spatial index: every coordinate falls in one leaf
    cell, [Parent] is the library's bit formula, and the neighbours of a
    cell are the next cells along the curve on either side. *)
Definition lsbForLevel (level : Z) : Z := Z.shiftl 1 (2 * (30 - level)).

#[export] Instance grid_Lib : s2.Lib := {
  LatLng := float * float;
  LatLngFromDegrees lat lng := (lat, lng);
  CellIDFromLatLng _ := 1152921504606846977;
  Parent ci level := Z.lor (Z.land ci (- lsbForLevel level)) (lsbForLevel level);
  EdgeNeighbors ci :=
    let step := 2 * lsbForLevel cellIDLevel in
    [# ci - step; ci + step; ci + 2 * step; ci - 2 * step]
}.

(** Request messages marshal to a tag byte; the settings message carries
    its hash after the tag. *)
#[export] Instance GetMapObjectsMessage_Message : proto.Message protos.GetMapObjectsMessage := {
  Zero := {| protos.CellId := []; protos.SinceTimestampMs := [];
             protos.GetMapObjectsMessage_Longitude := 0%float;
             protos.GetMapObjectsMessage_Latitude := 0%float |};
  Marshal m := ([Byte.x01], None);
  Unmarshal _ m := (m, Some (Foreign "not decoded here"))
}.

#[export] Instance GetInventoryMessage_Message : proto.Message protos.GetInventoryMessage := {
  Zero := {| protos.LastTimestampMs := 0 |};
  Marshal m := ([Byte.x02], None);
  Unmarshal _ m := (m, Some (Foreign "not decoded here"))
}.

#[export] Instance DownloadSettingsMessage_Message : proto.Message protos.DownloadSettingsMessage := {
  Zero := {| protos.Hash := "" |};
  Marshal m := (Byte.x03 :: list_byte_of_string (protos.Hash m), None);
  Unmarshal _ m := (m, Some (Foreign "not decoded here"))
}.

(** A response message is the list of the bytes decoded into it.  The
    decoder copies bytes one by one and stops with an error at the byte
    [0xff], keeping what it has copied so far. *)
Record reply : Type := { fields : list Byte.byte }.

Fixpoint decode (buf : list Byte.byte) : list Byte.byte * option error :=
  match buf with
  | [] => ([], None)
  | b :: buf' =>
    if Byte.eqb b Byte.xff then ([], Some (Foreign "proto: illegal tag"))
    else let (m, err) := decode buf' in (b :: m, err)
  end.

#[export] Instance reply_Message : proto.Message reply := {
  Zero := {| fields := [] |};
  Marshal m := (fields m, None);
  Unmarshal buf _ := let (m, err) := decode buf in ({| fields := m |}, err)
}.

(** The classifier of the fixture: status 1 is success. *)
Definition GetErrorFromStatus (code : Z) : option error :=
  if decide (code = 1) then None else Some (Foreign "status not ok").

Definition here : Location := {| Lon := 4.5%float; Lat := 52.5%float; Alt := 0%float |}.

(** A bootstrapped session at [here], with provider [p] at address 1 and a
    client with script [c] at address 2. *)
Definition session0 (dbg : bool) : Session :=
  {| location := Some here; url := ""; rpc := 2%positive; provider := 1%positive;
     debug := dbg |}.

Definition world0 (p : account) (c : script) : World account script :=
  {| self := session0 false;
     providers := {[ 1%positive := p ]};
     clients := {[ 2%positive := c ]};
     clock := 1469000000;
     stdlog := [];
     wire := [] |}.

Definition guest : account := {| refuses := None; token := ""; logins := 0 |}.

Definition banned : account :=
  {| refuses := Some (Foreign "auth: login refused"); token := ""; logins := 0 |}.

Definition answer (api : string) (code : Z) (payloads : list (list Byte.byte))
  : option protos.ResponseEnvelope * option error :=
  (Some {| protos.ApiUrl := api; protos.ResponseEnvelope_StatusCode := code;
           protos.Returns := payloads |}, None).

Definition failure (text : string) : option protos.ResponseEnvelope * option error :=
  (None, Some (Foreign text)).

(** The URL and the envelope of the latest round trip of a run. *)
Definition sent {A : Type} (o : outcome account script A) : string * protos.RequestEnvelope :=
  List.last (wire (final o))
    ("", {| protos.RequestId := 0; protos.StatusCode := 0; protos.Unknown12 := 0;
            protos.Longitude := 0%float; protos.Latitude := 0%float;
            protos.Altitude := 0%float;
            protos.AuthInfo := {| protos.Provider := "";
                                  protos.Token := {| protos.Contents := "";
                                                     protos.Unknown2 := 0 |} |};
            protos.Requests := [] |}).

(** A response message decoded from protobuf's wire format, as the runtime
    does for a message whose field 1 is the bool [success] and whose
    field 2 is the embedded message [player_data], kept here as its
    bytes.  The decoder sets each field as soon as it has read it and
    stops at the first error, keeping the fields set so far. *)
Record profile : Type := { success : bool; player_data : list Byte.byte }.

(** [DecodeVarint]: seven bits a byte, least significant first, the top
    bit of a byte saying that another byte follows. *)
Fixpoint DecodeVarint (shift : N) (buf : list Byte.byte) : (N * list Byte.byte) + error :=
  if (64 <=? shift)%N then inr (Foreign "proto: integer overflow") else
  match buf with
  | [] => inr (Foreign "unexpected EOF")
  | b :: rest =>
    let n := Byte.to_N b in
    if (n <? 128)%N then inl (N.shiftl n shift, rest)
    else match DecodeVarint (shift + 7) rest with
         | inl (x, rest') => inl (N.lor (N.shiftl (n - 128) shift) x, rest')
         | inr e => inr e
         end
  end.

(** Skips (or, for field 2, takes) [n] bytes. *)
Definition take_bytes (n : N) (buf : list Byte.byte) : (list Byte.byte * list Byte.byte) + error :=
  if (N.of_nat (length buf) <? n)%N then inr (Foreign "unexpected EOF")
  else inl (take (N.to_nat n) buf, drop (N.to_nat n) buf).

Fixpoint unmarshal_profile (fuel : nat) (buf : list Byte.byte) (m : profile)
  : profile * option error :=
  match fuel, buf with
  | O, _ | _, [] => (m, None)
  | S fuel, _ =>
    match DecodeVarint 0 buf with
    | inr e => (m, Some e)
    | inl (key, rest) =>
      let wire := N.land key 7 in
      let tag := N.shiftr key 3 in
      if (tag =? 0)%N then (m, Some (Foreign "proto: illegal tag 0"))
      else if (tag =? 1)%N && (wire =? 0)%N then
        match DecodeVarint 0 rest with
        | inr e => (m, Some e)
        | inl (x, rest) =>
          unmarshal_profile fuel rest
            {| success := negb (x =? 0)%N; player_data := player_data m |}
        end
      else if (tag =? 2)%N && (wire =? 2)%N then
        match DecodeVarint 0 rest with
        | inr e => (m, Some e)
        | inl (n, rest) =>
          match take_bytes n rest with
          | inr e => (m, Some e)
          | inl (data, rest) =>
            unmarshal_profile fuel rest {| success := success m; player_data := data |}
          end
        end
      else if (tag =? 1)%N || (tag =? 2)%N then (m, Some (Foreign "proto: bad wiretype"))
      else
        match wire with
        | 0%N => match DecodeVarint 0 rest with
                 | inr e => (m, Some e)
                 | inl (_, rest) => unmarshal_profile fuel rest m
                 end
        | 1%N => match take_bytes 8 rest with
                 | inr e => (m, Some e)
                 | inl (_, rest) => unmarshal_profile fuel rest m
                 end
        | 2%N => match DecodeVarint 0 rest with
                 | inr e => (m, Some e)
                 | inl (n, rest) =>
                   match take_bytes n rest with
                   | inr e => (m, Some e)
                   | inl (_, rest) => unmarshal_profile fuel rest m
                   end
                 end
        | 5%N => match take_bytes 4 rest with
                 | inr e => (m, Some e)
                 | inl (_, rest) => unmarshal_profile fuel rest m
                 end
        | _ => (m, Some (Foreign "proto: bad wiretype"))
        end
    end
  end.

#[export] Instance profile_Message : proto.Message profile := {
  Zero := {| success := false; player_data := [] |};
  Marshal m := ([], Some (Foreign "not encoded here"));
  Unmarshal buf m := unmarshal_profile (S (length buf)) buf m
}.

End Fixture.

(** * Reasoning about the methods *)

Section Properties.

Context {P R : Type} {the_provider : auth.Provider P} {the_client : rpc.Client R}
        {the_index : s2.Lib}.
Context {GetMapObjectsResponse GetPlayerResponse GetInventoryResponse : Type}.
Context {map_objects : proto.Message GetMapObjectsResponse}
        {player_profile : proto.Message GetPlayerResponse}
        {inventory_items : proto.Message GetInventoryResponse}.
Context {map_query : proto.Message protos.GetMapObjectsMessage}
        {inventory_query : proto.Message protos.GetInventoryMessage}
        {settings_query : proto.Message protos.DownloadSettingsMessage}.
Variable GetErrorFromStatus : Z -> option error.

Implicit Types (w : World P R) (s : Session) (e : error).

(** ** Frame rules *)

Local Abbreviation keeps_self := (@keeps P R _ _ self).
Local Abbreviation keeps_wire := (@keeps P R _ _ wire).
Local Abbreviation keeps_clients := (@keeps P R _ _ clients).

Lemma keeps_ret {A X} (proj : World P R -> X) (a : A) : keeps proj (mret a).
Proof. intros w. reflexivity. Qed.

Lemma keeps_bind {A B X} (proj : World P R -> X) (m : M P R A) (k : A -> M P R B) :
  keeps proj m -> (forall a, keeps proj (k a)) -> keeps proj (m ≫= k).
Proof.
  intros Hm Hk w. unfold mbind, M_bind. specialize (Hm w).
  destruct (m w) as [a w'|p w']; simpl in *; [|done].
  by rewrite Hk.
Qed.

Lemma keeps_lift {A X} (proj : World P R -> X) (r : result A) : keeps proj (lift r).
Proof. intros w. by destruct r. Qed.

Lemma keeps_get_self {X} (proj : World P R -> X) : keeps proj get_self.
Proof. by intros w. Qed.

Lemma keeps_time_Now_Unix {X} (proj : World P R -> X) : keeps proj time_Now_Unix.
Proof. by intros w. Qed.

Lemma keeps_self_via_provider {A} (f : P -> P * A) : keeps_self (via_provider f).
Proof. intros w. unfold via_provider. by repeat case_match. Qed.

Lemma keeps_wire_via_provider {A} (f : P -> P * A) : keeps_wire (via_provider f).
Proof. intros w. unfold via_provider. by repeat case_match. Qed.

Lemma keeps_clients_via_provider {A} (f : P -> P * A) : keeps_clients (via_provider f).
Proof. intros w. unfold via_provider. by repeat case_match. Qed.

Lemma keeps_self_log_Println l : keeps_self (log_Println l).
Proof. by intros w. Qed.

Lemma keeps_wire_log_Println l : keeps_wire (log_Println l).
Proof. by intros w. Qed.

Lemma keeps_clients_log_Println l : keeps_clients (log_Println l).
Proof. by intros w. Qed.

Lemma keeps_self_rpc_Request u env : keeps_self (rpc_Request u env).
Proof. intros w. unfold rpc_Request. by repeat case_match. Qed.

Lemma keeps_wire_setURL t : keeps_wire (setURL t).
Proof. by intros w. Qed.

Lemma keeps_clients_setURL t : keeps_clients (setURL t).
Proof. by intros w. Qed.

Create HintDb frame discriminated.

#[local] Hint Resolve keeps_ret keeps_lift keeps_get_self keeps_time_Now_Unix
  keeps_self_via_provider keeps_wire_via_provider keeps_clients_via_provider
  keeps_self_log_Println keeps_wire_log_Println keeps_clients_log_Println
  keeps_self_rpc_Request keeps_wire_setURL keeps_clients_setURL : frame.

(** Walks down a method, one statement at a time. *)
Ltac frame :=
  repeat first
    [ solve [eauto with frame]
    | apply keeps_bind; [| intros ?]
    | case_match ].

Lemma keeps_self_Call requests : keeps_self (Call requests).
Proof. unfold Call. frame. Qed.

#[local] Hint Resolve keeps_self_Call : frame.

Lemma keeps_self_Announce : keeps_self (Announce GetMapObjectsResponse GetErrorFromStatus).
Proof. unfold Announce. frame. Qed.

Lemma keeps_self_GetPlayer : keeps_self (GetPlayer GetPlayerResponse).
Proof. unfold GetPlayer. frame. Qed.

Lemma keeps_self_GetInventory : keeps_self (GetInventory GetInventoryResponse).
Proof. unfold GetInventory. frame. Qed.

(** ** What a call does *)

(** Unfolds the monad and the primitive operations of the world. *)
Ltac run :=
  unfold mbind, M_bind, mret, M_ret, via_provider, rpc_Request, log_Println,
    time_Now_Unix, get_self, lift, deref, index, setURL in *; simpl in *.

Lemma wire_grows_not {X} (l : list X) (x : X) : l <> l ++ [x].
Proof.
  intros Heq. apply (f_equal length) in Heq.
  rewrite length_app in Heq. simpl in Heq. lia.
Qed.

(** [Call] either panics before anything is sent, or sends one envelope
    holding the batch to the session's URL and returns the transport's
    answer. *)
Lemma Call_outcome requests w :
  match Call requests w with
  | Done r w' =>
      exists c env,
        clients w !! rpc (self w) = Some c /\
        r = (rpc.Request c (getURL (self w)) env).2 /\
        wire w' = wire w ++ [(getURL (self w), env)] /\
        protos.Requests env = requests /\
        self w' = self w
  | Panic _ w' => wire w' = wire w /\ self w' = self w
  end.
Proof.
  unfold Call. run.
  destruct (providers w !! provider (self w)) as [p|] eqn:Hp; [|done].
  destruct (auth.GetProviderString p) as [p1 providerString] eqn:Hs; simpl.
  rewrite lookup_insert_eq.
  destruct (auth.GetAccessToken p1) as [p2 accessToken] eqn:Ht; simpl.
  destruct (location (self w)) as [l|] eqn:Hl; [|done].
  destruct (debug (self w)) eqn:Hd; simpl;
    (destruct (clients w !! rpc (self w)) as [c|] eqn:Hc; [|done]).
  all: destruct (rpc.Request c _ _) as [c' [resp err]] eqn:Hr; simpl.
  all: rewrite Hd; simpl.
  all: eexists c, _; rewrite Hr; simpl; done.
Qed.

Lemma keeps_wire_dead_end {A} (m : M P R A) w u env r :
  keeps_wire m -> ~ round_trip m w u env r.
Proof.
  intros Hm [Hwire _]. rewrite Hm in Hwire. by apply wire_grows_not in Hwire.
Qed.

(** A round trip of [pre ≫= k] is made by [k] when [pre] stays off the
    wire; [pre] then has run to its end. *)
Lemma round_trip_bind {A B} (pre : M P R A) (k : A -> M P R B) w u env r :
  keeps_wire pre -> keeps_clients pre -> keeps_self pre ->
  round_trip (pre ≫= k) w u env r ->
  exists a w1, pre w = Done a w1 /\ (pre ≫= k) w = k a w1 /\
               round_trip (k a) w1 u env r /\ self w1 = self w.
Proof.
  unfold round_trip, mbind, M_bind.
  intros Hw Hc Hs [Hwire (c & Hlook & Hr)].
  specialize (Hw w); specialize (Hc w); specialize (Hs w).
  destruct (pre w) as [a w1|p w1]; simpl in *.
  - exists a, w1. rewrite Hw, Hc, Hs. eauto 10.
  - rewrite Hw in Hwire. by apply wire_grows_not in Hwire.
Qed.

(** A round trip of [Call requests ≫= k], when [k] stays off the wire, is
    the one [Call] makes: [Call] returns the transport's answer, and the
    envelope sent holds the batch. *)
Lemma round_trip_Call {B} requests (k : _ -> M P R B) w u env r :
  (forall x, keeps_wire (k x)) ->
  round_trip (Call requests ≫= k) w u env r ->
  exists w1, Call requests w = Done r w1 /\ (Call requests ≫= k) w = k r w1 /\
             self w1 = self w /\ protos.Requests env = requests /\
             u = getURL (self w).
Proof.
  unfold round_trip, mbind, M_bind.
  intros Hk [Hwire (c & Hlook & Hr)].
  pose proof (Call_outcome requests w) as Hcall.
  destruct (Call requests w) as [r' w1|p w1]; simpl in *.
  - destruct Hcall as (c' & env' & Hlook' & -> & Hw1 & Hreqs & Hself).
    rewrite Hk, Hw1 in Hwire. apply app_inv_head in Hwire.
    injection Hwire as <- <-.
    rewrite Hlook in Hlook'. injection Hlook' as <-.
    rewrite Hr. eauto 10.
  - destruct Hcall as [Hw1 _]. rewrite Hw1 in Hwire.
    by apply wire_grows_not in Hwire.
Qed.

(** ** The methods on a round trip *)

(** Peels the statements in front of [Call] off a round trip. *)
Ltac to_the_call H :=
  repeat first
    [ apply round_trip_Call in H; [| intros; frame]
    | apply round_trip_bind in H; [| solve [frame] ..];
      destruct H as (? & ? & _ & -> & H & ?); cbv beta in *
    | match type of H with
      | round_trip (let '(_, _) := ?x in _) _ _ _ _ => destruct x
      | round_trip (match ?x with _ => _ end) _ _ _ _ => destruct x
      | round_trip (mret _) _ _ _ _ => by apply keeps_wire_dead_end in H; [| frame]
      end ].

Lemma GetPlayer_on_round_trip w u env r :
  round_trip (GetPlayer GetPlayerResponse) w u env r ->
  exists w1, self w1 = self w /\
    GetPlayer GetPlayerResponse w =
      match r.2 with
      | Some e => Done (None, Some e) w1
      | None =>
        match r.1 with
        | None => Panic NilDereference w1
        | Some response =>
          match protos.Returns response with
          | [] => Panic (IndexOutOfRange 0 0) w1
          | payload :: _ => Done (Some (proto.Unmarshal payload proto.Zero).1, None) w1
          end
        end
      end.
Proof.
  intros H. unfold GetPlayer in *. to_the_call H.
  destruct H as (w1 & _ & -> & Hself & _ & _).
  exists w1. split; [done|].
  destruct r as [[response|] [e|]]; simpl; try done.
  run. destruct (protos.Returns response); simpl; [done|].
  by destruct (proto.Unmarshal _ _).
Qed.

Lemma GetInventory_on_round_trip w u env r :
  round_trip (GetInventory GetInventoryResponse) w u env r ->
  exists w1, self w1 = self w /\
    GetInventory GetInventoryResponse w =
      match r.2 with
      | Some e => Done (None, Some e) w1
      | None =>
        match r.1 with
        | None => Panic NilDereference w1
        | Some response =>
          match protos.Returns response with
          | [] => Panic (IndexOutOfRange 0 0) w1
          | payload :: _ => Done (Some (proto.Unmarshal payload proto.Zero).1, None) w1
          end
        end
      end.
Proof.
  intros H. unfold GetInventory in *. to_the_call H.
  destruct H as (w1 & _ & -> & Hself & _ & _).
  exists w1. split; [done|].
  destruct r as [[response|] [e|]]; simpl; try done.
  run. destruct (protos.Returns response); simpl; [done|].
  by destruct (proto.Unmarshal _ _).
Qed.

Lemma Announce_on_round_trip w u env r :
  round_trip (Announce GetMapObjectsResponse GetErrorFromStatus) w u env r ->
  exists w1, self w1 = self w /\
    protos.Request_RequestType <$> protos.Requests env =
      [protos.RequestType_GET_MAP_OBJECTS; protos.RequestType_GET_HATCHED_EGGS;
       protos.RequestType_GET_INVENTORY; protos.RequestType_CHECK_AWARDED_BADGES;
       protos.RequestType_DOWNLOAD_SETTINGS] /\
    Announce GetMapObjectsResponse GetErrorFromStatus w =
      match r.2 with
      | Some _ => Done (None, Some RequestError) w1
      | None =>
        match r.1 with
        | None => Panic NilDereference w1
        | Some response =>
          match protos.Returns response with
          | [] => Panic (IndexOutOfRange 0 0) w1
          | payload :: _ =>
            Done (Some (proto.Unmarshal payload proto.Zero).1,
                  GetErrorFromStatus (protos.ResponseEnvelope_StatusCode response)) w1
          end
        end
      end.
Proof.
  intros H. unfold Announce in *. to_the_call H.
  destruct H as (w1 & _ & -> & Hself & Hreqs & _).
  exists w1. split; [congruence|]. split; [by rewrite Hreqs|].
  destruct r as [[response|] [e|]]; simpl; try done.
  run. destruct (protos.Returns response); simpl; [done|].
  by destruct (proto.Unmarshal _ _).
Qed.

Lemma Init_on_round_trip w u env r :
  round_trip Init w u env r ->
  exists w1, self w1 = self w /\
    Init w =
      match r.2 with
      | Some e => Done (Some e) w1
      | None =>
        match r.1 with
        | None => Panic NilDereference w1
        | Some response =>
          if decide (protos.ApiUrl response = "") then
            Done (Some (Errorf "Could not initialize session, the service might be down")) w1
          else
            Done None
              (set_self {| location := location (self w1);
                           url := "https://" +:+ protos.ApiUrl response +:+ "/rpc";
                           rpc := rpc (self w1); provider := provider (self w1);
                           debug := debug (self w1) |} w1)
        end
      end.
Proof.
  intros H. unfold Init in *. to_the_call H.
  destruct H as (w1 & _ & -> & Hself & _ & _).
  exists w1. split; [congruence|].
  destruct r as [[response|] [e|]]; simpl; try done.
  run. by destruct (decide (protos.ApiUrl response = "")).
Qed.

(** ** Round trips are made *)

(** With a provider, a coordinate and a client, [Call] reaches the
    transport: the envelope it sends and the answer it returns. *)
Lemma Call_sends requests w p l c :
  providers w !! provider (self w) = Some p ->
  location (self w) = Some l ->
  clients w !! rpc (self w) = Some c ->
  let named := auth.GetProviderString p in
  let granted := auth.GetAccessToken named.1 in
  let env :=
    {| protos.RequestId := 8145806132888207460;
       protos.StatusCode := 2;
       protos.Unknown12 := 989;
       protos.Longitude := Lon l;
       protos.Latitude := Lat l;
       protos.Altitude := Alt l;
       protos.AuthInfo :=
         {| protos.Provider := named.2;
            protos.Token := {| protos.Contents := granted.2; protos.Unknown2 := 59 |} |};
       protos.Requests := requests |} in
  exists w1,
    Call requests w = Done (rpc.Request c (getURL (self w)) env).2 w1 /\
    wire w1 = wire w ++ [(getURL (self w), env)] /\
    self w1 = self w /\
    providers w1 = <[provider (self w) := granted.1]> (providers w).
Proof.
  intros Hp Hl Hc. unfold Call. run. rewrite Hp.
  destruct (auth.GetProviderString p) as [p1 providerString]; simpl.
  rewrite lookup_insert_eq.
  destruct (auth.GetAccessToken p1) as [p2 accessToken]; simpl.
  rewrite Hl; simpl.
  destruct (debug (self w)) eqn:Hd; simpl; rewrite Hc.
  all: change (uint64 8145806132888207460) with 8145806132888207460.
  all: change (int32 2) with 2; change (int64 989) with 989; change (int32 59) with 59.
  all: destruct (rpc.Request c _ _) as [c' [resp err]]; simpl; rewrite Hd; simpl.
  all: eexists; split; [done|]; simpl; by rewrite insert_insert_eq.
Qed.

Lemma Call_bind_round_trip {B} requests (k : _ -> M P R B) w p l c :
  providers w !! provider (self w) = Some p ->
  location (self w) = Some l ->
  clients w !! rpc (self w) = Some c ->
  (forall x, keeps_wire (k x)) ->
  exists env r, round_trip (Call requests ≫= k) w (getURL (self w)) env r.
Proof.
  intros Hp Hl Hc Hk.
  destruct (Call_sends requests w p l c Hp Hl Hc) as (w1 & Hcall & Hwire & _).
  eexists _, _. split; [|by eauto].
  unfold mbind, M_bind. by rewrite Hcall, Hk, Hwire.
Qed.

Lemma GetPlayer_makes_round_trip w p l c :
  providers w !! provider (self w) = Some p ->
  location (self w) = Some l ->
  clients w !! rpc (self w) = Some c ->
  exists env r, round_trip (GetPlayer GetPlayerResponse) w (getURL (self w)) env r.
Proof.
  intros Hp Hl Hc. unfold GetPlayer.
  eapply Call_bind_round_trip; [done..|]. intros x. frame.
Qed.

Lemma GetInventory_makes_round_trip w p l c :
  providers w !! provider (self w) = Some p ->
  location (self w) = Some l ->
  clients w !! rpc (self w) = Some c ->
  exists env r, round_trip (GetInventory GetInventoryResponse) w (getURL (self w)) env r.
Proof.
  intros Hp Hl Hc. unfold GetInventory.
  eapply Call_bind_round_trip; [done..|]. intros x. frame.
Qed.

(** A statement that runs to its end off the wire hands the round trip
    over to what follows it. *)
Lemma round_trip_after {A B} (pre : M P R A) (k : A -> M P R B) w w1 u a :
  pre w = Done a w1 ->
  wire w1 = wire w -> clients w1 = clients w -> self w1 = self w ->
  (exists env r, round_trip (k a) w1 u env r) ->
  exists env r, round_trip (pre ≫= k) w u env r.
Proof.
  intros Hpre Hw Hc Hs (env & r & Hrt). exists env, r.
  unfold round_trip, mbind, M_bind in *. by rewrite Hpre, <- Hw, <- Hc, <- Hs.
Qed.

Lemma Announce_makes_round_trip w p l c :
  providers w !! provider (self w) = Some p ->
  location (self w) = Some l ->
  clients w !! rpc (self w) = Some c ->
  exists env r,
    round_trip (Announce GetMapObjectsResponse GetErrorFromStatus) w (getURL (self w)) env r.
Proof.
  intros Hp Hl Hc. unfold Announce.
  eapply round_trip_after; [reflexivity|done..|]. cbv beta.
  eapply round_trip_after; [by unfold getCellIDs; rewrite Hl|done..|]. cbv beta.
  eapply round_trip_after; [reflexivity|done..|]. cbv beta.
  eapply round_trip_after; [by rewrite Hl|done..|]. cbv beta.
  repeat case_match.
  eapply Call_bind_round_trip; [done..|]. intros x. frame.
Qed.

Lemma Init_makes_round_trip w p l c :
  providers w !! provider (self w) = Some p ->
  (auth.Login p).2.2 = None ->
  location (self w) = Some l ->
  clients w !! rpc (self w) = Some c ->
  exists env r, round_trip Init w (getURL (self w)) env r.
Proof.
  intros Hp Hlogin Hl Hc.
  destruct (auth.Login p) as [p' [granted err]] eqn:HL. simpl in Hlogin. subst err.
  unfold Init.
  eapply round_trip_after;
    [by unfold via_provider; rewrite Hp, HL|done..|]. cbv beta. simpl.
  repeat case_match.
  eapply (Call_bind_round_trip _ _ (set_providers _ w)); [by apply lookup_insert_eq|done..|].
  intros x. frame.
Qed.

(** ** The session struct across [Init] *)

(** [Init] leaves the struct alone unless it returns without error, and
    then only the URL has changed, to the form [setURL] writes. *)
Lemma Init_writes_url_on_success w :
  match Init w with
  | Done None w' =>
      exists urlToken,
        urlToken <> "" /\
        self w' = {| location := location (self w);
                     url := "https://" +:+ urlToken +:+ "/rpc";
                     rpc := rpc (self w); provider := provider (self w);
                     debug := debug (self w) |}
  | o => self (final o) = self w
  end.
Proof.
  unfold Init, mbind at 1, M_bind at 1.
  pose proof (keeps_self_via_provider auth.Login w) as Hlogin.
  destruct (via_provider auth.Login w) as [[granted [e|]] w1|p w1]; simpl in *; try done.
  destruct (proto.Marshal _) as [settingsMessage ?].
  unfold mbind at 1, M_bind at 1.
  match goal with
  | |- context [Call ?requests w1] =>
      pose proof (keeps_self_Call requests w1) as Hcall;
      destruct (Call requests w1) as [[response [e|]] w2|p w2]
  end; simpl in *; try congruence.
  run. destruct response as [response|]; simpl; [|congruence].
  destruct (decide (protos.ApiUrl response = "")) as [|Hurl]; simpl; [congruence|].
  exists (protos.ApiUrl response). split; [done|]. by rewrite Hcall, Hlogin.
Qed.

(** ** Helpers on integers and strings *)

Lemma uint64_range z : 0 <= uint64 z < 2 ^ 64.
Proof. unfold uint64. apply Z.mod_pos_bound. lia. Qed.

Lemma uint64_id z : 0 <= z < 2 ^ 64 -> uint64 z = z.
Proof. intros Hz. unfold uint64. by apply Z.mod_small. Qed.

(** * The properties of the specification *)


(** C2.  When the round trip fails with the transport's error [e],
    [Announce] returns the fixed value [RequestError] whatever [e] is,
    whereas [GetPlayer] and [GetInventory] return [e] itself. *)
Theorem transport_failure_generic_in_Announce_verbatim_elsewhere
    w u env (response : option protos.ResponseEnvelope) e :
  (round_trip (Announce GetMapObjectsResponse GetErrorFromStatus) w u env (response, Some e) ->
   exists w1, Announce GetMapObjectsResponse GetErrorFromStatus w
              = Done (None, Some RequestError) w1) /\
  (round_trip (GetPlayer GetPlayerResponse) w u env (response, Some e) ->
   exists w1, GetPlayer GetPlayerResponse w = Done (None, Some e) w1) /\
  (round_trip (GetInventory GetInventoryResponse) w u env (response, Some e) ->
   exists w1, GetInventory GetInventoryResponse w = Done (None, Some e) w1).
Proof.
  split; [|split]; intros Hrt.
  - apply Announce_on_round_trip in Hrt as (w1 & _ & _ & ->). by exists w1.
  - apply GetPlayer_on_round_trip in Hrt as (w1 & _ & ->). by exists w1.
  - apply GetInventory_on_round_trip in Hrt as (w1 & _ & ->). by exists w1.
Qed.

(** C3.  A session whose endpoint is unset, as [NewSession] builds it,
    resolves to the default URL; once [Init] has made its round trip and
    been answered with the endpoint "abc123", [Init] returns no error and
    the session resolves to "https://abc123/rpc".  The same holds for
    every endpoint that is not empty. *)
Theorem getURL_default_until_Init_binds :
  (forall s, url s = "" -> getURL s = defaultURL) /\
  (forall provider location debug w,
     exists s w1, NewSession provider location debug w = Done s w1 /\
                  getURL s = defaultURL) /\
  (forall w u env response,
     round_trip Init w u env (Some response, None) ->
     protos.ApiUrl response = "abc123" ->
     exists w1, Init w = Done None w1 /\ getURL (self w1) = "https://abc123/rpc") /\
  (forall w u env response,
     round_trip Init w u env (Some response, None) ->
     protos.ApiUrl response <> "" ->
     exists w1, Init w = Done None w1 /\
                getURL (self w1) = "https://" +:+ protos.ApiUrl response +:+ "/rpc").
Proof.
  split; [|split; [|split]].
  - intros s Hs. unfold getURL. rewrite Hs. done.
  - intros. eexists _, _. split; [reflexivity|done].
  - intros w u env response Hrt Hurl.
    apply Init_on_round_trip in Hrt as (w1 & _ & ->). simpl. rewrite Hurl.
    eexists. split; [reflexivity|done].
  - intros w u env response Hrt Hurl.
    apply Init_on_round_trip in Hrt as (w1 & _ & ->). simpl.
    destruct (decide (protos.ApiUrl response = "")) as [|_]; [done|].
    eexists. split; [reflexivity|done].
Qed.

(** C4.  When [Init]'s round trip succeeds but the response carries an
    empty endpoint, [Init] returns the "service might be down" error and
    the session struct, its endpoint included, is as before: a
    bootstrapped session still resolves to the default URL. *)
Theorem Init_empty_endpoint_is_an_error w u env response :
  round_trip Init w u env (Some response, None) ->
  protos.ApiUrl response = "" ->
  exists w1,
    Init w = Done (Some (Errorf "Could not initialize session, the service might be down")) w1 /\
    self w1 = self w /\
    url (self w1) = url (self w) /\
    (url (self w) = "" -> getURL (self w1) = defaultURL).
Proof.
  intros Hrt Hurl.
  apply Init_on_round_trip in Hrt as (w1 & Hself & ->). simpl. rewrite Hurl. simpl.
  exists w1. rewrite Hself. repeat split; try done.
  intros Hunset. unfold getURL. by rewrite Hunset.
Qed.

(** C5.  When the provider's [Login] fails with [e], [Init] returns [e]
    itself and makes no round trip: nothing is added to the wire, the
    client is not touched, nothing is logged, and the session struct is
    as before. *)
Theorem Init_login_failure_skips_transport w p e :
  providers w !! provider (self w) = Some p ->
  (auth.Login p).2.2 = Some e ->
  exists w1, Init w = Done (Some e) w1 /\
             wire w1 = wire w /\ clients w1 = clients w /\
             stdlog w1 = stdlog w /\ self w1 = self w.
Proof.
  intros Hp Hlogin. unfold Init. run. rewrite Hp.
  destruct (auth.Login p) as [p' [granted err]]. simpl in *. subst err.
  eexists. split; [reflexivity|done].
Qed.

(** C6.  For every coordinate of a session with a provider and a client,
    [Announce] makes its round trip, and the batch in the envelope it
    sends has exactly 5 sub-requests, in the order map-objects,
    hatched-eggs, inventory, badges, settings. *)
Theorem Announce_batch_is_five_in_fixed_order w p l c :
  providers w !! provider (self w) = Some p ->
  location (self w) = Some l ->
  clients w !! rpc (self w) = Some c ->
  exists env r,
    round_trip (Announce GetMapObjectsResponse GetErrorFromStatus) w (getURL (self w)) env r /\
    length (protos.Requests env) = 5%nat /\
    protos.Request_RequestType <$> protos.Requests env =
      [protos.RequestType_GET_MAP_OBJECTS; protos.RequestType_GET_HATCHED_EGGS;
       protos.RequestType_GET_INVENTORY; protos.RequestType_CHECK_AWARDED_BADGES;
       protos.RequestType_DOWNLOAD_SETTINGS].
Proof.
  intros Hp Hl Hc.
  destruct (Announce_makes_round_trip w p l c Hp Hl Hc) as (env & r & Hrt).
  exists env, r. split; [done|].
  apply Announce_on_round_trip in Hrt as (_ & _ & Htypes & _).
  split; [|done]. apply (f_equal length) in Htypes. by rewrite length_fmap in Htypes.
Qed.

(** C7.  For every batch, [Call] on a session with a provider, a
    coordinate and a client sends one envelope to the session's URL and
    returns the transport's answer to it.  The envelope carries the
    request identifier 8145806132888207460, the status code 2 and the
    field 989, the session's longitude, latitude and altitude, the
    provider string and the access token that the provider gives during
    the call (with the marker 59), and the batch itself, unchanged. *)
Theorem Call_builds_the_envelope requests w p l c :
  providers w !! provider (self w) = Some p ->
  location (self w) = Some l ->
  clients w !! rpc (self w) = Some c ->
  let named := auth.GetProviderString p in
  let granted := auth.GetAccessToken named.1 in
  let env :=
    {| protos.RequestId := 8145806132888207460;
       protos.StatusCode := 2;
       protos.Unknown12 := 989;
       protos.Longitude := Lon l;
       protos.Latitude := Lat l;
       protos.Altitude := Alt l;
       protos.AuthInfo :=
         {| protos.Provider := named.2;
            protos.Token := {| protos.Contents := granted.2; protos.Unknown2 := 59 |} |};
       protos.Requests := requests |} in
  let answer := (rpc.Request c (getURL (self w)) env).2 in
  round_trip (Call requests) w (getURL (self w)) env answer /\
  exists w1, Call requests w = Done answer w1.
Proof.
  intros Hp Hl Hc named granted env answer.
  destruct (Call_sends requests w p l c Hp Hl Hc) as (w1 & Hcall & Hwire & _).
  fold named granted env answer in Hcall, Hwire.
  split; [|by exists w1].
  split; [by rewrite Hcall|by exists c].
Qed.

(** C8.  [Announce], [GetPlayer] and [GetInventory] (and [Call] under
    them) leave the session struct as they found it, every field of it,
    whether they return or panic.  [Init] does too, unless it returns
    without error: then the endpoint alone has changed, to the URL of the
    assigned fragment. *)
Theorem session_struct_written_only_by_successful_Init w :
  self (final (Announce GetMapObjectsResponse GetErrorFromStatus w)) = self w /\
  self (final (GetPlayer GetPlayerResponse w)) = self w /\
  self (final (GetInventory GetInventoryResponse w)) = self w /\
  (forall requests, self (final (Call requests w)) = self w) /\
  (self (final (Init w)) = self w \/
   exists w1 urlToken,
     Init w = Done None w1 /\ urlToken <> "" /\
     self w1 = {| location := location (self w);
                  url := "https://" +:+ urlToken +:+ "/rpc";
                  rpc := rpc (self w); provider := provider (self w);
                  debug := debug (self w) |}).
Proof.
  split; [apply keeps_self_Announce|].
  split; [apply keeps_self_GetPlayer|].
  split; [apply keeps_self_GetInventory|].
  split; [intros requests; apply keeps_self_Call|].
  pose proof (Init_writes_url_on_success w) as Hinit.
  destruct (Init w) as [[e|] w1|p w1]; simpl in *; [by left| |by left].
  destruct Hinit as (urlToken & Hne & Hself). right. by exists w1, urlToken.
Qed.

(** C9.  When the round trip succeeds with a response whose [Returns] is
    empty, [Announce], [GetPlayer] and [GetInventory] panic on the index
    0 of a slice of length 0; none of them returns an error. *)
Theorem empty_Returns_panics w u env response :
  protos.Returns response = [] ->
  (round_trip (Announce GetMapObjectsResponse GetErrorFromStatus) w u env (Some response, None) ->
   exists w1, Announce GetMapObjectsResponse GetErrorFromStatus w
              = Panic (IndexOutOfRange 0 0) w1) /\
  (round_trip (GetPlayer GetPlayerResponse) w u env (Some response, None) ->
   exists w1, GetPlayer GetPlayerResponse w = Panic (IndexOutOfRange 0 0) w1) /\
  (round_trip (GetInventory GetInventoryResponse) w u env (Some response, None) ->
   exists w1, GetInventory GetInventoryResponse w = Panic (IndexOutOfRange 0 0) w1).
Proof.
  intros Hempty. split; [|split]; intros Hrt.
  - apply Announce_on_round_trip in Hrt as (w1 & _ & _ & ->). simpl.
    rewrite Hempty. by exists w1.
  - apply GetPlayer_on_round_trip in Hrt as (w1 & _ & ->). simpl.
    rewrite Hempty. by exists w1.
  - apply GetInventory_on_round_trip in Hrt as (w1 & _ & ->). simpl.
    rewrite Hempty. by exists w1.
Qed.


(** * Further properties of the methods *)

(** ** What goes on the wire *)

(** The envelope [Call] builds from the provider [p], the coordinate [l]
    and a batch. *)
Local Abbreviation envelope_from p l requests :=
  {| protos.RequestId := 8145806132888207460;
     protos.StatusCode := 2;
     protos.Unknown12 := 989;
     protos.Longitude := Lon l;
     protos.Latitude := Lat l;
     protos.Altitude := Alt l;
     protos.AuthInfo :=
       {| protos.Provider := (auth.GetProviderString p).2;
          protos.Token :=
            {| protos.Contents := (auth.GetAccessToken (auth.GetProviderString p).1).2;
               protos.Unknown2 := 59 |} |};
     protos.Requests := requests |}.

Local Abbreviation bare type_ :=
  {| protos.Request_RequestType := type_; protos.Request_RequestMessage := [] |}.

Lemma Call_bind_sends {B} requests (k : _ -> M P R B) w p l c :
  providers w !! provider (self w) = Some p ->
  location (self w) = Some l ->
  clients w !! rpc (self w) = Some c ->
  (forall x, keeps_wire (k x)) ->
  exists env r,
    round_trip (Call requests ≫= k) w (getURL (self w)) env r /\
    env = envelope_from p l requests /\
    r = (rpc.Request c (getURL (self w)) env).2.
Proof.
  intros Hp Hl Hc Hk.
  destruct (Call_sends requests w p l c Hp Hl Hc) as (w1 & Hcall & Hwire & _).
  eexists _, _. split; [|split; reflexivity].
  split; [|by eauto].
  unfold mbind, M_bind. by rewrite Hcall, Hk, Hwire.
Qed.

Lemma round_trip_after_with {A B} (pre : M P R A) (k : A -> M P R B) w w1 u a
    (Q : protos.RequestEnvelope -> option protos.ResponseEnvelope * option error -> Prop) :
  pre w = Done a w1 ->
  wire w1 = wire w -> clients w1 = clients w -> self w1 = self w ->
  (exists env r, round_trip (k a) w1 u env r /\ Q env r) ->
  exists env r, round_trip (pre ≫= k) w u env r /\ Q env r.
Proof.
  intros Hpre Hw Hc Hs (env & r & Hrt & HQ). exists env, r. split; [|done].
  unfold round_trip, mbind, M_bind in *. by rewrite Hpre, <- Hw, <- Hc, <- Hs.
Qed.

Lemma Init_sends w p l c :
  providers w !! provider (self w) = Some p ->
  (auth.Login p).2.2 = None ->
  location (self w) = Some l ->
  clients w !! rpc (self w) = Some c ->
  exists env r,
    round_trip Init w (getURL (self w)) env r /\
    env = envelope_from (auth.Login p).1 l
            [bare protos.RequestType_GET_PLAYER;
             bare protos.RequestType_GET_HATCHED_EGGS;
             bare protos.RequestType_GET_INVENTORY;
             bare protos.RequestType_CHECK_AWARDED_BADGES;
             {| protos.Request_RequestType := protos.RequestType_DOWNLOAD_SETTINGS;
                protos.Request_RequestMessage :=
                  (proto.Marshal {| protos.Hash := downloadSettingsHash |}).1 |}] /\
    r = (rpc.Request c (getURL (self w)) env).2.
Proof.
  intros Hp Hlogin Hl Hc.
  destruct (auth.Login p) as [p' [granted err]] eqn:HL. simpl in Hlogin. subst err.
  unfold Init.
  eapply round_trip_after_with;
    [by unfold via_provider; rewrite Hp, HL|done..|]. cbv beta. simpl.
  destruct (proto.Marshal _) as [settingsMessage ?]. simpl.
  eapply (Call_bind_sends _ _ (set_providers _ w)); [by apply lookup_insert_eq|done..|].
  intros x. frame.
Qed.

(** X1.  [Init] on a session with a provider that lets it log in, a
    coordinate and a client sends one envelope to the session's URL.  Its
    provider string and token are those the provider gives after the
    login, and its batch is the five sub-requests player, hatched eggs,
    inventory, badges and settings, the first four without a message and
    the last with the marshalled settings hash. *)
Theorem Init_sends_the_housekeeping_batch w p l c :
  providers w !! provider (self w) = Some p ->
  (auth.Login p).2.2 = None ->
  location (self w) = Some l ->
  clients w !! rpc (self w) = Some c ->
  exists env r,
    round_trip Init w (getURL (self w)) env r /\
    env = envelope_from (auth.Login p).1 l
            [bare protos.RequestType_GET_PLAYER;
             bare protos.RequestType_GET_HATCHED_EGGS;
             bare protos.RequestType_GET_INVENTORY;
             bare protos.RequestType_CHECK_AWARDED_BADGES;
             {| protos.Request_RequestType := protos.RequestType_DOWNLOAD_SETTINGS;
                protos.Request_RequestMessage :=
                  (proto.Marshal {| protos.Hash := downloadSettingsHash |}).1 |}] /\
    r = (rpc.Request c (getURL (self w)) env).2.
Proof. apply Init_sends. Qed.

(** X2.  [GetPlayer] and [GetInventory] on a session with a provider, a
    coordinate and a client each send one envelope to the session's URL,
    whose batch is the single sub-request for the player, respectively
    the inventory, without a message. *)
Theorem GetPlayer_and_GetInventory_send_one_bare_request w p l c :
  providers w !! provider (self w) = Some p ->
  location (self w) = Some l ->
  clients w !! rpc (self w) = Some c ->
  (exists env r,
     round_trip (GetPlayer GetPlayerResponse) w (getURL (self w)) env r /\
     env = envelope_from p l [bare protos.RequestType_GET_PLAYER] /\
     r = (rpc.Request c (getURL (self w)) env).2) /\
  (exists env r,
     round_trip (GetInventory GetInventoryResponse) w (getURL (self w)) env r /\
     env = envelope_from p l [bare protos.RequestType_GET_INVENTORY] /\
     r = (rpc.Request c (getURL (self w)) env).2).
Proof.
  intros Hp Hl Hc. split.
  - unfold GetPlayer. eapply Call_bind_sends; [done..|]. intros x. frame.
  - unfold GetInventory. eapply Call_bind_sends; [done..|]. intros x. frame.
Qed.

(** X3.  [Announce] on a session with a provider, a coordinate and a
    client sends one envelope whose batch carries: the marshalled
    map-objects message with the five cell identifiers of the coordinate,
    five zero timestamps and the session's longitude and latitude; the
    marshalled inventory message with the clock's seconds times 1000 (as
    an [int64]); the marshalled settings hash; and no message for hatched
    eggs and badges. *)
Theorem Announce_sends_cells_clock_and_settings w p l c cellIDs :
  providers w !! provider (self w) = Some p ->
  location (self w) = Some l ->
  clients w !! rpc (self w) = Some c ->
  getCellIDs (Some l) = Ok cellIDs ->
  exists env r,
    round_trip (Announce GetMapObjectsResponse GetErrorFromStatus) w (getURL (self w)) env r /\
    env = envelope_from p l
            [{| protos.Request_RequestType := protos.RequestType_GET_MAP_OBJECTS;
                protos.Request_RequestMessage :=
                  (proto.Marshal
                     {| protos.CellId := cellIDs;
                        protos.SinceTimestampMs := [0; 0; 0; 0; 0];
                        protos.GetMapObjectsMessage_Longitude := Lon l;
                        protos.GetMapObjectsMessage_Latitude := Lat l |}).1 |};
             bare protos.RequestType_GET_HATCHED_EGGS;
             {| protos.Request_RequestType := protos.RequestType_GET_INVENTORY;
                protos.Request_RequestMessage :=
                  (proto.Marshal {| protos.LastTimestampMs := int64 (clock w * 1000) |}).1 |};
             bare protos.RequestType_CHECK_AWARDED_BADGES;
             {| protos.Request_RequestType := protos.RequestType_DOWNLOAD_SETTINGS;
                protos.Request_RequestMessage :=
                  (proto.Marshal {| protos.Hash := downloadSettingsHash |}).1 |}] /\
    r = (rpc.Request c (getURL (self w)) env).2 /\
    length cellIDs = 5%nat.
Proof.
  intros Hp Hl Hc Hcells.
  assert (length cellIDs = 5%nat) as Hfive.
  { unfold getCellIDs in Hcells. simpl in Hcells.
    revert Hcells. generalize (s2.EdgeNeighbors
      (s2.Parent (s2.CellIDFromLatLng (s2.LatLngFromDegrees (Lat l) (Lon l))) cellIDLevel)).
    intros neighbors. inv_vec neighbors; intros n0 n1 n2 n3. simpl.
    by intros [= <-]. }
  cut (exists env r,
    round_trip (Announce GetMapObjectsResponse GetErrorFromStatus) w (getURL (self w)) env r /\
    (fun env r =>
       env = envelope_from p l
            [{| protos.Request_RequestType := protos.RequestType_GET_MAP_OBJECTS;
                protos.Request_RequestMessage :=
                  (proto.Marshal
                     {| protos.CellId := cellIDs;
                        protos.SinceTimestampMs := replicate (length cellIDs) 0;
                        protos.GetMapObjectsMessage_Longitude := Lon l;
                        protos.GetMapObjectsMessage_Latitude := Lat l |}).1 |};
             bare protos.RequestType_GET_HATCHED_EGGS;
             {| protos.Request_RequestType := protos.RequestType_GET_INVENTORY;
                protos.Request_RequestMessage :=
                  (proto.Marshal {| protos.LastTimestampMs := int64 (clock w * 1000) |}).1 |};
             bare protos.RequestType_CHECK_AWARDED_BADGES;
             {| protos.Request_RequestType := protos.RequestType_DOWNLOAD_SETTINGS;
                protos.Request_RequestMessage :=
                  (proto.Marshal {| protos.Hash := downloadSettingsHash |}).1 |}] /\
       r = (rpc.Request c (getURL (self w)) env).2) env r).
  { intros (env & r & Hrt & Henv & Hr). rewrite Hfive in Henv. simpl in Henv.
    by exists env, r. }
  unfold Announce.
  eapply round_trip_after_with; [reflexivity|done..|]. cbv beta.
  eapply round_trip_after_with; [by rewrite Hl, Hcells|done..|]. cbv beta.
  eapply round_trip_after_with; [reflexivity|done..|]. cbv beta.
  eapply round_trip_after_with; [by rewrite Hl|done..|]. cbv beta.
  destruct (proto.Marshal {| protos.CellId := _ |}) as [getMapObjectsMessage ?].
  destruct (proto.Marshal {| protos.LastTimestampMs := _ |}) as [getInventoryMessage ?].
  destruct (proto.Marshal {| protos.Hash := _ |}) as [settingsMessage ?]. simpl.
  eapply Call_bind_sends; [done..|]. intros x. frame.
Qed.

(** ** Failures and panics *)

(** X4.  When [Init]'s round trip fails, [Init] returns the transport's
    error itself and the session struct is as before, so a bootstrapped
    session stays bootstrapped. *)
Theorem Init_returns_transport_error_verbatim w u env
    (response : option protos.ResponseEnvelope) e :
  round_trip Init w u env (response, Some e) ->
  exists w1, Init w = Done (Some e) w1 /\ self w1 = self w.
Proof.
  intros Hrt. apply Init_on_round_trip in Hrt as (w1 & Hself & ->). by exists w1.
Qed.

(** X5.  When the transport answers with neither a response nor an error,
    each of the four methods panics on the nil response; none returns. *)
Theorem nil_response_without_error_panics w u env :
  (round_trip Init w u env (None, None) ->
   exists w1, Init w = Panic NilDereference w1) /\
  (round_trip (Announce GetMapObjectsResponse GetErrorFromStatus) w u env (None, None) ->
   exists w1, Announce GetMapObjectsResponse GetErrorFromStatus w = Panic NilDereference w1) /\
  (round_trip (GetPlayer GetPlayerResponse) w u env (None, None) ->
   exists w1, GetPlayer GetPlayerResponse w = Panic NilDereference w1) /\
  (round_trip (GetInventory GetInventoryResponse) w u env (None, None) ->
   exists w1, GetInventory GetInventoryResponse w = Panic NilDereference w1).
Proof.
  split; [|split; [|split]]; intros Hrt.
  - apply Init_on_round_trip in Hrt as (w1 & _ & ->). by exists w1.
  - apply Announce_on_round_trip in Hrt as (w1 & _ & _ & ->). by exists w1.
  - apply GetPlayer_on_round_trip in Hrt as (w1 & _ & ->). by exists w1.
  - apply GetInventory_on_round_trip in Hrt as (w1 & _ & ->). by exists w1.
Qed.

Lemma bind_Done {A B} (pre : M P R A) (k : A -> M P R B) w a w1 :
  pre w = Done a w1 -> (pre ≫= k) w = k a w1.
Proof. intros Hpre. unfold mbind, M_bind. by rewrite Hpre. Qed.

Lemma bind_Panic {A B} (pre : M P R A) (k : A -> M P R B) w p w1 :
  pre w = Panic p w1 -> (pre ≫= k) w = Panic p w1.
Proof. intros Hpre. unfold mbind, M_bind. by rewrite Hpre. Qed.

Lemma Call_without_location requests w :
  location (self w) = None ->
  exists w1, Call requests w = Panic NilDereference w1 /\
             wire w1 = wire w /\ clients w1 = clients w /\ stdlog w1 = stdlog w.
Proof.
  intros Hl. unfold Call. run.
  destruct (providers w !! provider (self w)) as [p|]; [|by eexists].
  destruct (auth.GetProviderString p) as [p1 providerString]; simpl.
  rewrite lookup_insert_eq.
  destruct (auth.GetAccessToken p1) as [p2 accessToken]; simpl.
  rewrite Hl. by eexists.
Qed.

(** X6.  A session whose location is nil never reaches the transport.
    [Announce] panics at once, before it has touched anything; [Call],
    [GetPlayer] and [GetInventory] panic with nothing sent or logged;
    [Init] either returns the error of a failed login or panics, again
    with nothing sent. *)
Theorem nil_location_never_reaches_the_transport w :
  location (self w) = None ->
  Announce GetMapObjectsResponse GetErrorFromStatus w = Panic NilDereference w /\
  (forall requests,
     exists w1, Call requests w = Panic NilDereference w1 /\
                wire w1 = wire w /\ stdlog w1 = stdlog w) /\
  (exists w1, GetPlayer GetPlayerResponse w = Panic NilDereference w1 /\ wire w1 = wire w) /\
  (exists w1, GetInventory GetInventoryResponse w = Panic NilDereference w1 /\
              wire w1 = wire w) /\
  ((exists e w1, Init w = Done (Some e) w1 /\ wire w1 = wire w) \/
   (exists w1, Init w = Panic NilDereference w1 /\ wire w1 = wire w)).
Proof.
  intros Hl. split; [|split; [|split; [|split]]].
  - unfold Announce, getCellIDs. run. by rewrite Hl.
  - intros requests.
    destruct (Call_without_location requests w Hl) as (w1 & -> & ? & _ & ?). by exists w1.
  - unfold GetPlayer, mbind, M_bind.
    destruct (Call_without_location
                (generateRequests ++ [bare protos.RequestType_GET_PLAYER]) w Hl)
      as (w1 & -> & ? & _). by exists w1.
  - unfold GetInventory, mbind, M_bind.
    destruct (Call_without_location
                (generateRequests ++ [bare protos.RequestType_GET_INVENTORY]) w Hl)
      as (w1 & -> & ? & _). by exists w1.
  - unfold Init.
    pose proof (keeps_self_via_provider auth.Login w) as Hself.
    pose proof (keeps_wire_via_provider auth.Login w) as Hwire.
    destruct (via_provider auth.Login w) as [[granted [e|]] w1|p w1] eqn:Hlogin; simpl in *.
    + left. exists e, w1. by rewrite (bind_Done _ _ _ _ _ Hlogin).
    + right. rewrite (bind_Done _ _ _ _ _ Hlogin).
      destruct (proto.Marshal _) as [settingsMessage ?].
      match goal with
      | |- context [Call ?requests ≫= _] =>
          destruct (Call_without_location requests w1) as (w2 & Hcall & Hw2 & _);
            [by rewrite Hself|]
      end.
      exists w2. rewrite (bind_Panic _ _ _ _ _ Hcall). by rewrite Hw2.
    + right. rewrite (bind_Panic _ _ _ _ _ Hlogin).
      unfold via_provider in Hlogin.
      destruct (providers w !! provider (self w)) as [p0|].
      * by destruct (auth.Login p0).
      * injection Hlogin as <- <-. by exists w.
Qed.

(** X7.  A session whose provider is missing (a nil interface) panics in
    [Init], [Call], [GetPlayer] and [GetInventory] at the first method
    call on the provider, before anything is sent, and leaves the world
    as it was. *)
Theorem nil_provider_panics_before_anything_is_sent w :
  providers w !! provider (self w) = None ->
  Init w = Panic NilDereference w /\
  (forall requests, Call requests w = Panic NilDereference w) /\
  GetPlayer GetPlayerResponse w = Panic NilDereference w /\
  GetInventory GetInventoryResponse w = Panic NilDereference w.
Proof.
  intros Hp. repeat split; try intros requests;
    unfold Init, GetPlayer, GetInventory, Call; run; by rewrite Hp.
Qed.

(** ** One round trip, to the session's URL *)

Lemma at_most_one_trip_keeps {A} (m : M P R A) : keeps_wire m -> at_most_one_trip m.
Proof. intros Hm w. left. apply Hm. Qed.

Lemma at_most_one_trip_bind {A B} (pre : M P R A) (k : A -> M P R B) :
  keeps_wire pre -> keeps_self pre ->
  (forall a, at_most_one_trip (k a)) -> at_most_one_trip (pre ≫= k).
Proof.
  intros Hw Hs Hk w. specialize (Hw w); specialize (Hs w).
  unfold mbind, M_bind. destruct (pre w) as [a w1|p w1]; simpl in *; [|by left].
  rewrite <- Hw, <- Hs. apply Hk.
Qed.

Lemma at_most_one_trip_Call_bind {B} requests (k : _ -> M P R B) :
  (forall x, keeps_wire (k x)) -> at_most_one_trip (Call requests ≫= k).
Proof.
  intros Hk w. pose proof (Call_outcome requests w) as Hcall.
  unfold mbind, M_bind. destruct (Call requests w) as [r w1|p w1]; simpl in *.
  - destruct Hcall as (c & env & _ & _ & Hwire & _). right. exists env. by rewrite Hk.
  - left. by destruct Hcall.
Qed.

(** Walks down a method towards its call. *)
Ltac trips :=
  repeat first
    [ apply at_most_one_trip_Call_bind; intros; frame
    | apply at_most_one_trip_bind; [solve [frame] | solve [frame] | intros ?]
    | apply at_most_one_trip_keeps; solve [frame]
    | case_match ].

Lemma at_most_one_trip_Call requests : at_most_one_trip (Call requests).
Proof.
  intros w. pose proof (Call_outcome requests w) as Hcall.
  destruct (Call requests w) as [r w1|p w1]; simpl.
  - destruct Hcall as (c & env & _ & _ & Hwire & _). right. by exists env.
  - left. by destruct Hcall.
Qed.

Lemma at_most_one_trip_Init : at_most_one_trip (P:=P) (R:=R) Init.
Proof. unfold Init. trips. Qed.

Lemma at_most_one_trip_Announce :
  at_most_one_trip (Announce GetMapObjectsResponse GetErrorFromStatus).
Proof. unfold Announce. trips. Qed.

Lemma at_most_one_trip_GetPlayer : at_most_one_trip (GetPlayer GetPlayerResponse).
Proof. unfold GetPlayer. trips. Qed.

Lemma at_most_one_trip_GetInventory : at_most_one_trip (GetInventory GetInventoryResponse).
Proof. unfold GetInventory. trips. Qed.

(** The round trip of a method that makes at most one goes to the URL the
    session resolves to when the method starts. *)
Lemma round_trip_url {A} (m : M P R A) w u env r :
  at_most_one_trip m -> round_trip m w u env r -> u = getURL (self w).
Proof.
  intros Hm [Hwire _]. destruct (Hm w) as [Hnone|[env' Hone]].
  - rewrite Hnone in Hwire. by apply wire_grows_not in Hwire.
  - rewrite Hone in Hwire. apply app_inv_head in Hwire. by injection Hwire as <- _.
Qed.

(** X8.  Whatever the world, each of [Call], [Init], [Announce],
    [GetPlayer] and [GetInventory] makes at most one round trip, and makes
    it to the URL the session resolves to when the method starts; this
    holds also when the method fails or panics. *)
Theorem every_method_makes_at_most_one_round_trip w :
  let at_most_one {A} (o : outcome P R A) :=
    wire (final o) = wire w \/
    exists env, wire (final o) = wire w ++ [(getURL (self w), env)] in
  (forall requests, at_most_one (Call requests w)) /\
  at_most_one (Init w) /\
  at_most_one (Announce GetMapObjectsResponse GetErrorFromStatus w) /\
  at_most_one (GetPlayer GetPlayerResponse w) /\
  at_most_one (GetInventory GetInventoryResponse w).
Proof.
  intros at_most_one. subst at_most_one. cbv beta.
  split; [intros requests; apply at_most_one_trip_Call|].
  split; [apply at_most_one_trip_Init|].
  split; [apply at_most_one_trip_Announce|].
  split; [apply at_most_one_trip_GetPlayer|apply at_most_one_trip_GetInventory].
Qed.

(** ** The bound session *)

Lemma bound_url_not_empty urlToken : "https://" +:+ urlToken +:+ "/rpc" <> "".
Proof. done. Qed.

(** X9.  Once [Init] has bound the session to a fragment, every round
    trip any method makes from a world holding that session struct goes
    to "https://<fragment>/rpc". *)
Theorem after_Init_round_trips_go_to_the_bound_URL w u env response :
  round_trip Init w u env (Some response, None) ->
  protos.ApiUrl response <> "" ->
  let bound := "https://" +:+ protos.ApiUrl response +:+ "/rpc" in
  Init w = Done None (final (Init w)) /\
  forall w2 u2 env2 r2,
    self w2 = self (final (Init w)) ->
    ((exists requests, round_trip (Call requests) w2 u2 env2 r2) \/
     round_trip Init w2 u2 env2 r2 \/
     round_trip (Announce GetMapObjectsResponse GetErrorFromStatus) w2 u2 env2 r2 \/
     round_trip (GetPlayer GetPlayerResponse) w2 u2 env2 r2 \/
     round_trip (GetInventory GetInventoryResponse) w2 u2 env2 r2) ->
    u2 = bound.
Proof.
  intros Hrt Hurl bound.
  apply Init_on_round_trip in Hrt as (w1 & _ & Hinit). simpl in Hinit.
  destruct (decide (protos.ApiUrl response = "")) as [|_]; [done|].
  rewrite Hinit. simpl. split; [done|].
  intros w2 u2 env2 r2 Hself Htrip.
  assert (u2 = getURL (self w2)) as ->.
  { destruct Htrip as [[requests Ht]|[Ht|[Ht|[Ht|Ht]]]].
    - by apply (round_trip_url _ _ _ _ _ (at_most_one_trip_Call requests)) in Ht.
    - by apply (round_trip_url _ _ _ _ _ at_most_one_trip_Init) in Ht.
    - by apply (round_trip_url _ _ _ _ _ at_most_one_trip_Announce) in Ht.
    - by apply (round_trip_url _ _ _ _ _ at_most_one_trip_GetPlayer) in Ht.
    - by apply (round_trip_url _ _ _ _ _ at_most_one_trip_GetInventory) in Ht. }
  rewrite Hself. done.
Qed.

(** X10.  A bound session stays bound: no method ever sets the endpoint
    back to empty, whether it returns, fails or panics, so a session that
    has left the default URL keeps resolving to an assigned URL. *)
Theorem bound_session_stays_bound w :
  url (self w) <> "" ->
  (forall requests, url (self (final (Call requests w))) <> "") /\
  url (self (final (Init w))) <> "" /\
  url (self (final (Announce GetMapObjectsResponse GetErrorFromStatus w))) <> "" /\
  url (self (final (GetPlayer GetPlayerResponse w))) <> "" /\
  url (self (final (GetInventory GetInventoryResponse w))) <> "".
Proof.
  intros Hbound.
  split; [intros requests; by rewrite keeps_self_Call|].
  split; [|by rewrite keeps_self_Announce, keeps_self_GetPlayer, keeps_self_GetInventory].
  pose proof (Init_writes_url_on_success w) as Hinit.
  destruct (Init w) as [[e|] w1|p w1]; simpl in *; [by rewrite Hinit| |by rewrite Hinit].
  destruct Hinit as (urlToken & _ & ->). simpl. apply bound_url_not_empty.
Qed.

(** ** The debug log *)

Lemma quiet_keeps {A} (m : M P R A) :
  @keeps P R _ _ stdlog m -> keeps_self m -> quiet m.
Proof. intros Hlog Hself w Hoff. by rewrite Hlog, Hself. Qed.

Lemma quiet_bind {A B} (pre : M P R A) (k : A -> M P R B) :
  quiet pre -> (forall a, quiet (k a)) -> quiet (pre ≫= k).
Proof.
  intros Hpre Hk w Hoff. specialize (Hpre w Hoff).
  unfold mbind, M_bind. destruct (pre w) as [a w1|p w1]; simpl in *; [|done].
  destruct Hpre as [<- Hoff1]. by apply Hk.
Qed.

Lemma keeps_stdlog_via_provider {A} (f : P -> P * A) : @keeps P R _ _ stdlog (via_provider f).
Proof. intros w. unfold via_provider. by repeat case_match. Qed.

Lemma keeps_stdlog_rpc_Request u env : @keeps P R _ _ stdlog (rpc_Request u env).
Proof. intros w. unfold rpc_Request. by repeat case_match. Qed.

Lemma quiet_setURL t : quiet (P:=P) (R:=R) (setURL t).
Proof. by intros w Hoff. Qed.

Lemma quiet_Call requests : quiet (Call requests).
Proof.
  intros w Hoff. rewrite keeps_self_Call. split; [|done].
  unfold Call. run.
  destruct (providers w !! provider (self w)) as [p|]; [|done].
  destruct (auth.GetProviderString p) as [p1 providerString]; simpl.
  rewrite lookup_insert_eq.
  destruct (auth.GetAccessToken p1) as [p2 accessToken]; simpl.
  destruct (location (self w)) as [l|]; [|done]. simpl.
  rewrite Hoff. simpl.
  destruct (clients w !! rpc (self w)) as [c|]; [|done].
  destruct (rpc.Request c _ _) as [c' [resp err]]. simpl. by rewrite Hoff.
Qed.

#[local] Hint Resolve keeps_stdlog_via_provider keeps_stdlog_rpc_Request : frame.

(** Walks down a method with the debug flag off. *)
Ltac hush :=
  repeat first
    [ apply quiet_Call
    | apply quiet_setURL
    | apply quiet_keeps; solve [frame]
    | apply quiet_bind; [| intros ?]
    | case_match ].

Lemma quiet_Init : quiet (P:=P) (R:=R) Init.
Proof. unfold Init. hush. Qed.

Lemma quiet_Announce : quiet (Announce GetMapObjectsResponse GetErrorFromStatus).
Proof. unfold Announce. hush. Qed.

Lemma quiet_GetPlayer : quiet (GetPlayer GetPlayerResponse).
Proof. unfold GetPlayer. hush. Qed.

Lemma quiet_GetInventory : quiet (GetInventory GetInventoryResponse).
Proof. unfold GetInventory. hush. Qed.

(** X11.  With the debug flag off, no method writes to the log, whether
    it returns, fails or panics. *)
Theorem debug_off_logs_nothing w :
  debug (self w) = false ->
  (forall requests, stdlog (final (Call requests w)) = stdlog w) /\
  stdlog (final (Init w)) = stdlog w /\
  stdlog (final (Announce GetMapObjectsResponse GetErrorFromStatus w)) = stdlog w /\
  stdlog (final (GetPlayer GetPlayerResponse w)) = stdlog w /\
  stdlog (final (GetInventory GetInventoryResponse w)) = stdlog w.
Proof.
  intros Hoff.
  split; [intros requests; by apply quiet_Call|].
  split; [by apply quiet_Init|].
  split; [by apply quiet_Announce|].
  split; [by apply quiet_GetPlayer|by apply quiet_GetInventory].
Qed.

Lemma keeps_stdlog_setURL t : @keeps P R _ _ stdlog (setURL t).
Proof. by intros w. Qed.

#[local] Hint Resolve keeps_stdlog_setURL : frame.

Lemma Call_logs requests w r w1 :
  Call requests w = Done r w1 ->
  exists env,
    wire w1 = wire w ++ [(getURL (self w), env)] /\
    stdlog w1 =
      stdlog w ++ (if debug (self w) then [LogRequest env; LogResponse r.1] else []).
Proof.
  unfold Call. run.
  destruct (providers w !! provider (self w)) as [p|]; [|done].
  destruct (auth.GetProviderString p) as [p1 providerString]; simpl.
  rewrite lookup_insert_eq.
  destruct (auth.GetAccessToken p1) as [p2 accessToken]; simpl.
  destruct (location (self w)) as [l|]; [|done]. simpl.
  destruct (debug (self w)) eqn:Hd; simpl;
    (destruct (clients w !! rpc (self w)) as [c|]; [|done]).
  all: destruct (rpc.Request c _ _) as [c' [resp err]]; simpl; rewrite Hd; simpl.
  all: intros [= <- <-]; eexists; split; [reflexivity|]; simpl.
  - by rewrite <- app_assoc.
  - by rewrite app_nil_r.
Qed.

Lemma logs_its_trip_dead {A} (m : M P R A) : keeps_wire m -> logs_its_trip m.
Proof. intros Hm w u env r Hrt. by apply keeps_wire_dead_end in Hrt. Qed.

Lemma logs_its_trip_bind {A B} (pre : M P R A) (k : A -> M P R B) :
  keeps_wire pre -> keeps_clients pre -> keeps_self pre -> @keeps P R _ _ stdlog pre ->
  (forall a, logs_its_trip (k a)) -> logs_its_trip (pre ≫= k).
Proof.
  intros Hw Hc Hs Hl Hk w u env r Hrt. specialize (Hl w).
  apply round_trip_bind in Hrt as (a & w1 & Hpre & -> & Hrt & Hself); [|done..].
  rewrite Hpre in Hl. simpl in Hl. rewrite <- Hl, <- Hself. by apply (Hk a w1 u env r).
Qed.

Lemma logs_its_trip_Call_bind {B} requests (k : _ -> M P R B) :
  (forall x, keeps_wire (k x)) -> (forall x, @keeps P R _ _ stdlog (k x)) ->
  logs_its_trip (Call requests ≫= k).
Proof.
  intros Hw Hl w u env r Hrt. pose proof Hrt as [Hwire _].
  apply round_trip_Call in Hrt as (w1 & Hcall & Hbind & _ & _ & ->); [|done].
  rewrite Hbind in *. rewrite Hw in Hwire. rewrite Hl.
  apply Call_logs in Hcall as (env' & Hwire' & ->).
  rewrite Hwire' in Hwire. apply app_inv_head in Hwire. by injection Hwire as ->.
Qed.

(** Walks down a method and its log. *)
Ltac logged :=
  repeat first
    [ apply logs_its_trip_Call_bind; intros; frame
    | apply logs_its_trip_bind; [solve [frame] .. | intros ?]
    | apply logs_its_trip_dead; solve [frame]
    | case_match ].

Lemma logs_its_trip_Call requests : logs_its_trip (Call requests).
Proof.
  intros w u env r [Hwire (c & Hc & Hr)].
  pose proof (Call_outcome requests w) as Hout.
  destruct (Call requests w) as [r' w1|p w1] eqn:Hcall; simpl in *.
  - destruct Hout as (c' & env' & Hc' & -> & Hsent & _).
    apply Call_logs in Hcall as (env'' & Hwire' & ->).
    rewrite Hwire' in Hsent. apply app_inv_head in Hsent. injection Hsent as ->.
    rewrite Hwire' in Hwire. apply app_inv_head in Hwire. injection Hwire as <- <-.
    rewrite Hc in Hc'. injection Hc' as <-. by rewrite <- Hr.
  - destruct Hout as [Hsame _]. rewrite Hsame in Hwire. by apply wire_grows_not in Hwire.
Qed.

Lemma logs_its_trip_Init : logs_its_trip (P:=P) (R:=R) Init.
Proof. unfold Init. logged. Qed.

Lemma logs_its_trip_Announce :
  logs_its_trip (Announce GetMapObjectsResponse GetErrorFromStatus).
Proof. unfold Announce. logged. Qed.

Lemma logs_its_trip_GetPlayer : logs_its_trip (GetPlayer GetPlayerResponse).
Proof. unfold GetPlayer. logged. Qed.

Lemma logs_its_trip_GetInventory : logs_its_trip (GetInventory GetInventoryResponse).
Proof. unfold GetInventory. logged. Qed.

(** X12.  With the debug flag on, a method that makes a round trip logs
    exactly two lines for it: the envelope it sends, before the round
    trip, and the response it receives (nil when there is none), after
    it. *)
Theorem debug_on_logs_the_envelope_then_the_response w u env r :
  debug (self w) = true ->
  (forall requests,
     round_trip (Call requests) w u env r ->
     stdlog (final (Call requests w)) = stdlog w ++ [LogRequest env; LogResponse r.1]) /\
  (round_trip Init w u env r ->
   stdlog (final (Init w)) = stdlog w ++ [LogRequest env; LogResponse r.1]) /\
  (round_trip (Announce GetMapObjectsResponse GetErrorFromStatus) w u env r ->
   stdlog (final (Announce GetMapObjectsResponse GetErrorFromStatus w))
   = stdlog w ++ [LogRequest env; LogResponse r.1]) /\
  (round_trip (GetPlayer GetPlayerResponse) w u env r ->
   stdlog (final (GetPlayer GetPlayerResponse w))
   = stdlog w ++ [LogRequest env; LogResponse r.1]) /\
  (round_trip (GetInventory GetInventoryResponse) w u env r ->
   stdlog (final (GetInventory GetInventoryResponse w))
   = stdlog w ++ [LogRequest env; LogResponse r.1]).
Proof.
  intros Hon.
  split; [intros requests Hrt; apply logs_its_trip_Call in Hrt; by rewrite Hon in Hrt|].
  split; [intros Hrt; apply logs_its_trip_Init in Hrt; by rewrite Hon in Hrt|].
  split; [intros Hrt; apply logs_its_trip_Announce in Hrt; by rewrite Hon in Hrt|].
  split; [intros Hrt; apply logs_its_trip_GetPlayer in Hrt; by rewrite Hon in Hrt|].
  intros Hrt; apply logs_its_trip_GetInventory in Hrt; by rewrite Hon in Hrt.
Qed.

(** ** A new session *)

(** X13.  A session built by [NewSession] with a location and a provider
    that lets it log in makes the round trip of its first [Init] to the
    default URL, through the client that [rpc.NewClient] has just
    created. *)
Theorem new_session_bootstraps_at_the_default_URL w provider0 p l dbg :
  providers w !! provider0 = Some p ->
  (auth.Login p).2.2 = None ->
  exists s w1,
    NewSession provider0 (Some l) dbg w = Done s w1 /\
    exists env r,
      round_trip Init (set_self s w1) defaultURL env r /\
      r = (rpc.Request rpc.NewClient defaultURL env).2.
Proof.
  intros Hp Hlogin. eexists _, _. split; [reflexivity|].
  match goal with
  | |- exists env r, round_trip Init ?w0 _ env r /\ _ =>
      destruct (Init_sends w0 p l rpc.NewClient) as (env & r & Hrt & _ & Hr);
        [done..|by apply lookup_insert_eq|]
  end.
  by exists env, r.
Qed.

(** ** Who logs in *)

Lemma keeps_providers_rpc_Request u env : @keeps P R _ _ providers (rpc_Request u env).
Proof. intros w. unfold rpc_Request. by repeat case_match. Qed.

Lemma keeps_providers_log_Println l : @keeps P R _ _ providers (log_Println l).
Proof. by intros w. Qed.

Lemma keeps_providers_setURL t : @keeps P R _ _ providers (setURL t).
Proof. by intros w. Qed.

#[local] Hint Resolve keeps_providers_rpc_Request keeps_providers_log_Println
  keeps_providers_setURL : frame.

(** [Call] asks the provider for its string and then for its token, and
    for nothing else. *)
Lemma Call_asks_the_provider_twice requests w p l :
  providers w !! provider (self w) = Some p ->
  location (self w) = Some l ->
  providers (final (Call requests w)) =
    <[provider (self w) := (auth.GetAccessToken (auth.GetProviderString p).1).1]> (providers w).
Proof.
  intros Hp Hl. unfold Call. run. rewrite Hp.
  destruct (auth.GetProviderString p) as [p1 providerString]; simpl.
  rewrite lookup_insert_eq.
  destruct (auth.GetAccessToken p1) as [p2 accessToken]; simpl.
  rewrite Hl; simpl.
  destruct (debug (self w)) eqn:Hd; simpl;
    (destruct (clients w !! rpc (self w)) as [c|]; [|by simpl; rewrite insert_insert_eq]).
  all: destruct (rpc.Request c _ _) as [c' [resp err]]; simpl; rewrite Hd; simpl.
  all: by rewrite insert_insert_eq.
Qed.

Lemma providers_after_bind {A B} (m : M P R A) (k : A -> M P R B) w :
  (forall x, @keeps P R _ _ providers (k x)) ->
  providers (final ((m ≫= k) w)) = providers (final (m w)).
Proof.
  intros Hk. unfold mbind, M_bind. destruct (m w) as [a w1|p w1]; simpl; [apply Hk|done].
Qed.

(** X14.  Only [Init] logs in.  On a session with a provider and a
    location, [Call], [GetPlayer], [GetInventory] and [Announce] leave the
    provider as its two getters leave it (the provider string asked
    first, the token second); [Init] logs in first and then does the
    same, unless the login fails, in which case the provider is as the
    failed login left it. *)
Theorem only_Init_logs_in w p l :
  providers w !! provider (self w) = Some p ->
  location (self w) = Some l ->
  let asked p := (auth.GetAccessToken (auth.GetProviderString p).1).1 in
  (forall requests,
     providers (final (Call requests w)) = <[provider (self w) := asked p]> (providers w)) /\
  providers (final (GetPlayer GetPlayerResponse w))
    = <[provider (self w) := asked p]> (providers w) /\
  providers (final (GetInventory GetInventoryResponse w))
    = <[provider (self w) := asked p]> (providers w) /\
  providers (final (Announce GetMapObjectsResponse GetErrorFromStatus w))
    = <[provider (self w) := asked p]> (providers w) /\
  providers (final (Init w))
    = <[provider (self w) :=
          match (auth.Login p).2.2 with
          | None => asked (auth.Login p).1
          | Some _ => (auth.Login p).1
          end]> (providers w).
Proof.
  intros Hp Hl asked. subst asked. cbv beta.
  split; [intros requests; by apply (Call_asks_the_provider_twice _ _ p l)|].
  split; [|split; [|split]].
  - unfold GetPlayer. rewrite providers_after_bind; [|intros x; frame].
    by apply (Call_asks_the_provider_twice _ _ p l).
  - unfold GetInventory. rewrite providers_after_bind; [|intros x; frame].
    by apply (Call_asks_the_provider_twice _ _ p l).
  - unfold Announce.
    rewrite (bind_Done get_self _ w (self w) w) by done.
    erewrite bind_Done; [|by unfold getCellIDs; rewrite Hl].
    rewrite (bind_Done time_Now_Unix _ w (clock w) w) by done.
    erewrite bind_Done; [|by rewrite Hl].
    repeat case_match.
    rewrite providers_after_bind; [|intros x; frame].
    by apply (Call_asks_the_provider_twice _ _ p l).
  - unfold Init.
    destruct (auth.Login p) as [p' [granted err]] eqn:HL.
    erewrite bind_Done; [|by unfold via_provider; rewrite Hp, HL].
    destruct err as [e|]; simpl; [done|].
    repeat case_match.
    rewrite providers_after_bind; [|intros x; frame].
    erewrite (Call_asks_the_provider_twice _ _ p' l); [|by apply lookup_insert_eq|done].
    simpl. by rewrite insert_insert_eq.
Qed.

End Properties.

(** * The properties on the fixture *)

Import Fixture.

(** Settles a round trip of a run on the fixture by running it. *)
Ltac ran := split; [vm_compute; reflexivity | eexists; split; vm_compute; reflexivity].



Lemma transport_failure_generic_in_Announce_verbatim_elsewhere_witness :
  let w := world0 guest [failure "timeout"] in
  (exists w1, Announce reply GetErrorFromStatus w = Done (None, Some RequestError) w1) /\
  (exists w1, GetPlayer reply w = Done (None, Some (Foreign "timeout")) w1) /\
  (exists w1, GetInventory reply w = Done (None, Some (Foreign "timeout")) w1).
Proof.
  intros w. split; [|split].
  - apply (proj1 (transport_failure_generic_in_Announce_verbatim_elsewhere
                    (GetPlayerResponse := reply) (GetInventoryResponse := reply)
                    GetErrorFromStatus w
                    (sent (Announce reply GetErrorFromStatus w)).1
                    (sent (Announce reply GetErrorFromStatus w)).2
                    None (Foreign "timeout"))).
    ran.
  - apply (proj1 (proj2 (transport_failure_generic_in_Announce_verbatim_elsewhere
                    (GetMapObjectsResponse := reply) (GetInventoryResponse := reply)
                    GetErrorFromStatus w
                    (sent (GetPlayer reply w)).1 (sent (GetPlayer reply w)).2
                    None (Foreign "timeout")))).
    ran.
  - apply (proj2 (proj2 (transport_failure_generic_in_Announce_verbatim_elsewhere
                    (GetMapObjectsResponse := reply) (GetPlayerResponse := reply)
                    GetErrorFromStatus w
                    (sent (GetInventory reply w)).1 (sent (GetInventory reply w)).2
                    None (Foreign "timeout")))).
    ran.
Defined.

Lemma getURL_default_until_Init_binds_witness :
  let w := world0 guest [answer "abc123" 1 []] in
  getURL (self w) = defaultURL /\
  exists w1, Init w = Done None w1 /\ getURL (self w1) = "https://abc123/rpc".
Proof.
  intros w.
  destruct (getURL_default_until_Init_binds (P := account) (R := script))
    as (Hunset & _ & Hbound & _).
  split; [by apply Hunset|].
  apply (Hbound w (sent (Init w)).1 (sent (Init w)).2
           {| protos.ApiUrl := "abc123"; protos.ResponseEnvelope_StatusCode := 1;
              protos.Returns := [] |}); [ran|reflexivity].
Defined.

Lemma Init_empty_endpoint_is_an_error_witness :
  let w := world0 guest [answer "" 1 []] in
  exists w1,
    Init w = Done (Some (Errorf "Could not initialize session, the service might be down")) w1 /\
    self w1 = self w /\
    url (self w1) = url (self w) /\
    (url (self w) = "" -> getURL (self w1) = defaultURL).
Proof.
  intros w.
  apply (Init_empty_endpoint_is_an_error w (sent (Init w)).1 (sent (Init w)).2
           {| protos.ApiUrl := ""; protos.ResponseEnvelope_StatusCode := 1;
              protos.Returns := [] |}); [ran|reflexivity].
Defined.

Lemma Init_login_failure_skips_transport_witness :
  let w := world0 banned [answer "abc123" 1 []] in
  exists w1, Init w = Done (Some (Foreign "auth: login refused")) w1 /\
             wire w1 = wire w /\ clients w1 = clients w /\
             stdlog w1 = stdlog w /\ self w1 = self w.
Proof.
  intros w.
  apply (Init_login_failure_skips_transport w banned (Foreign "auth: login refused"));
    vm_compute; reflexivity.
Defined.

Lemma Announce_batch_is_five_in_fixed_order_witness :
  let w := world0 guest [] in
  exists env r,
    round_trip (Announce reply GetErrorFromStatus) w (getURL (self w)) env r /\
    length (protos.Requests env) = 5%nat /\
    protos.Request_RequestType <$> protos.Requests env =
      [protos.RequestType_GET_MAP_OBJECTS; protos.RequestType_GET_HATCHED_EGGS;
       protos.RequestType_GET_INVENTORY; protos.RequestType_CHECK_AWARDED_BADGES;
       protos.RequestType_DOWNLOAD_SETTINGS].
Proof.
  intros w.
  apply (Announce_batch_is_five_in_fixed_order GetErrorFromStatus w guest here []);
    vm_compute; reflexivity.
Defined.

Lemma Call_builds_the_envelope_witness :
  let w := world0 {| refuses := None; token := "jwt"; logins := 1 |}
                  [answer "abc123" 1 [[Byte.x01]]] in
  let requests := [{| protos.Request_RequestType := protos.RequestType_GET_PLAYER;
                      protos.Request_RequestMessage := [] |}] in
  let env :=
    {| protos.RequestId := 8145806132888207460;
       protos.StatusCode := 2;
       protos.Unknown12 := 989;
       protos.Longitude := 4.5%float;
       protos.Latitude := 52.5%float;
       protos.Altitude := 0%float;
       protos.AuthInfo :=
         {| protos.Provider := "ptc";
            protos.Token := {| protos.Contents := "jwt"; protos.Unknown2 := 59 |} |};
       protos.Requests := requests |} in
  round_trip (Call requests) w defaultURL env (answer "abc123" 1 [[Byte.x01]]) /\
  exists w1, Call requests w = Done (answer "abc123" 1 [[Byte.x01]]) w1.
Proof.
  intros w requests env.
  assert (providers w !! provider (self w)
          = Some {| refuses := None; token := "jwt"; logins := 1 |}) as Hp
    by (vm_compute; reflexivity).
  assert (location (self w) = Some here) as Hl by reflexivity.
  assert (clients w !! rpc (self w) = Some [answer "abc123" 1 [[Byte.x01]]]) as Hc
    by (vm_compute; reflexivity).
  exact (Call_builds_the_envelope requests w _ _ _ Hp Hl Hc).
Defined.

Lemma empty_Returns_panics_witness :
  let w := world0 guest [answer "abc123" 1 []] in
  (exists w1, Announce reply GetErrorFromStatus w = Panic (IndexOutOfRange 0 0) w1) /\
  (exists w1, GetPlayer reply w = Panic (IndexOutOfRange 0 0) w1) /\
  (exists w1, GetInventory reply w = Panic (IndexOutOfRange 0 0) w1).
Proof.
  intros w.
  pose (response := {| protos.ApiUrl := "abc123"; protos.ResponseEnvelope_StatusCode := 1;
                       protos.Returns := [] |}).
  assert (protos.Returns response = []) as Hempty by reflexivity.
  split; [|split].
  - apply (proj1 (empty_Returns_panics
                    (GetPlayerResponse := reply) (GetInventoryResponse := reply)
                    GetErrorFromStatus w
                    (sent (Announce reply GetErrorFromStatus w)).1
                    (sent (Announce reply GetErrorFromStatus w)).2
                    response Hempty)).
    ran.
  - apply (proj1 (proj2 (empty_Returns_panics
                    (GetMapObjectsResponse := reply) (GetInventoryResponse := reply)
                    GetErrorFromStatus w
                    (sent (GetPlayer reply w)).1 (sent (GetPlayer reply w)).2
                    response Hempty))).
    ran.
  - apply (proj2 (proj2 (empty_Returns_panics
                    (GetMapObjectsResponse := reply) (GetPlayerResponse := reply)
                    GetErrorFromStatus w
                    (sent (GetInventory reply w)).1 (sent (GetInventory reply w)).2
                    response Hempty))).
    ran.
Defined.


(** ** More runs on the fixture *)

(** The token [Init] sends is the one the provider holds after the login
    that [Init] has just made, not one kept by the session. *)
Example Init_sends_the_token_of_its_login :
  protos.Contents (protos.Token (protos.AuthInfo
    (sent (Init (world0 guest [answer "abc123" 1 []]))).2)) = "+".
Proof. vm_compute. reflexivity. Qed.

(** A payload that breaks off after its first byte: the caller of
    [GetPlayer] gets the byte decoded so far, and no error. *)
Example GetPlayer_after_a_partial_decode :
  exists w1,
    GetPlayer reply (world0 guest [answer "abc123" 1 [[Byte.x01; Byte.xff]]])
    = Done (Some {| fields := [Byte.x01] |}, None) w1.
Proof. eexists. vm_compute. reflexivity. Qed.

(** A second [Init] goes to the bound URL. *)
Example second_Init_uses_the_bound_URL :
  match Init (world0 guest [answer "abc123" 1 []; answer "def456" 1 []]) with
  | Done None w1 => (sent (Init w1)).1 = "https://abc123/rpc"
  | _ => False
  end.
Proof. vm_compute. reflexivity. Qed.

(** With a nil location [Announce] panics before anything is sent. *)
Example Announce_without_location_panics :
  let w := set_self {| location := None; url := ""; rpc := 2%positive;
                       provider := 1%positive; debug := false |} (world0 guest []) in
  Announce reply GetErrorFromStatus w = Panic NilDereference w.
Proof. vm_compute. reflexivity. Qed.

(** ** The further properties on the fixture *)

Lemma Init_sends_the_housekeeping_batch_witness :
  let w := world0 guest [answer "abc123" 1 []] in
  exists env r,
    round_trip Init w defaultURL env r /\
    protos.Contents (protos.Token (protos.AuthInfo env)) = "+" /\
    protos.Request_RequestType <$> protos.Requests env =
      [protos.RequestType_GET_PLAYER; protos.RequestType_GET_HATCHED_EGGS;
       protos.RequestType_GET_INVENTORY; protos.RequestType_CHECK_AWARDED_BADGES;
       protos.RequestType_DOWNLOAD_SETTINGS] /\
    r = answer "abc123" 1 [].
Proof.
  intros w.
  assert (providers w !! provider (self w) = Some guest) as Hp by (vm_compute; reflexivity).
  assert ((auth.Login guest).2.2 = None) as Hlogin by reflexivity.
  assert (location (self w) = Some here) as Hl by reflexivity.
  assert (clients w !! rpc (self w) = Some [answer "abc123" 1 []]) as Hc
    by (vm_compute; reflexivity).
  destruct (Init_sends_the_housekeeping_batch w guest here _ Hp Hlogin Hl Hc)
    as (env & r & Hrt & Henv & Hr).
  exists env, r. split; [exact Hrt|]. subst r env. repeat split.
Defined.

Lemma GetPlayer_and_GetInventory_send_one_bare_request_witness :
  let w := world0 guest [answer "abc123" 1 [[Byte.x01]]] in
  (exists env r,
     round_trip (GetPlayer reply) w defaultURL env r /\
     protos.Requests env = [{| protos.Request_RequestType := protos.RequestType_GET_PLAYER;
                               protos.Request_RequestMessage := [] |}] /\
     r = answer "abc123" 1 [[Byte.x01]]) /\
  (exists env r,
     round_trip (GetInventory reply) w defaultURL env r /\
     protos.Requests env = [{| protos.Request_RequestType := protos.RequestType_GET_INVENTORY;
                               protos.Request_RequestMessage := [] |}] /\
     r = answer "abc123" 1 [[Byte.x01]]).
Proof.
  intros w.
  assert (providers w !! provider (self w) = Some guest) as Hp by (vm_compute; reflexivity).
  assert (location (self w) = Some here) as Hl by reflexivity.
  assert (clients w !! rpc (self w) = Some [answer "abc123" 1 [[Byte.x01]]]) as Hc
    by (vm_compute; reflexivity).
  destruct (GetPlayer_and_GetInventory_send_one_bare_request
              (GetPlayerResponse := reply) (GetInventoryResponse := reply)
              w guest here _ Hp Hl Hc)
    as [(envp & rp & Hrtp & Henvp & Hrp) (envi & ri & Hrti & Henvi & Hri)].
  split.
  - exists envp, rp. split; [exact Hrtp|]. subst rp envp. repeat split.
  - exists envi, ri. split; [exact Hrti|]. subst ri envi. repeat split.
Defined.

Lemma Announce_sends_cells_clock_and_settings_witness :
  let w := world0 guest [failure "timeout"] in
  exists env r,
    round_trip (Announce reply GetErrorFromStatus) w defaultURL env r /\
    protos.Request_RequestMessage <$> protos.Requests env =
      [[Byte.x01]; []; [Byte.x02]; [];
       Byte.x03 :: list_byte_of_string downloadSettingsHash] /\
    r = failure "timeout".
Proof.
  intros w.
  assert (providers w !! provider (self w) = Some guest) as Hp by (vm_compute; reflexivity).
  assert (location (self w) = Some here) as Hl by reflexivity.
  assert (clients w !! rpc (self w) = Some [failure "timeout"]) as Hc
    by (vm_compute; reflexivity).
  assert (getCellIDs (Some here) =
            Ok [1152921505680588800; 1152921503533105152; 1152921507828072448;
                1152921509975556096; 1152921501385621504]) as Hcells
    by (vm_compute; reflexivity).
  destruct (Announce_sends_cells_clock_and_settings (GetMapObjectsResponse := reply)
              GetErrorFromStatus w guest here _ _ Hp Hl Hc Hcells)
    as (env & r & Hrt & Henv & Hr & _).
  exists env, r. split; [exact Hrt|]. subst r env. repeat split.
Defined.

Lemma Init_returns_transport_error_verbatim_witness :
  let w := world0 guest [failure "timeout"] in
  exists w1, Init w = Done (Some (Foreign "timeout")) w1 /\ self w1 = self w.
Proof.
  intros w.
  assert (round_trip Init w (sent (Init w)).1 (sent (Init w)).2
            (None, Some (Foreign "timeout"))) as Hrt by ran.
  exact (Init_returns_transport_error_verbatim w _ _ _ _ Hrt).
Defined.

Lemma nil_response_without_error_panics_witness :
  let w := world0 guest [(None, None)] in
  (exists w1, Init w = Panic NilDereference w1) /\
  (exists w1, Announce reply GetErrorFromStatus w = Panic NilDereference w1) /\
  (exists w1, GetPlayer reply w = Panic NilDereference w1) /\
  (exists w1, GetInventory reply w = Panic NilDereference w1).
Proof.
  intros w. split; [|split; [|split]].
  - assert (round_trip Init w (sent (Init w)).1 (sent (Init w)).2 (None, None)) as Hrt by ran.
    exact (proj1 (nil_response_without_error_panics
                    (GetMapObjectsResponse := reply) (GetPlayerResponse := reply)
                    (GetInventoryResponse := reply) GetErrorFromStatus w _ _) Hrt).
  - assert (round_trip (Announce reply GetErrorFromStatus) w
              (sent (Announce reply GetErrorFromStatus w)).1
              (sent (Announce reply GetErrorFromStatus w)).2 (None, None)) as Hrt by ran.
    exact (proj1 (proj2 (nil_response_without_error_panics
                    (GetPlayerResponse := reply) (GetInventoryResponse := reply)
                    GetErrorFromStatus w _ _)) Hrt).
  - assert (round_trip (GetPlayer reply) w (sent (GetPlayer reply w)).1
              (sent (GetPlayer reply w)).2 (None, None)) as Hrt by ran.
    exact (proj1 (proj2 (proj2 (nil_response_without_error_panics
                    (GetMapObjectsResponse := reply) (GetInventoryResponse := reply)
                    GetErrorFromStatus w _ _))) Hrt).
  - assert (round_trip (GetInventory reply) w (sent (GetInventory reply w)).1
              (sent (GetInventory reply w)).2 (None, None)) as Hrt by ran.
    exact (proj2 (proj2 (proj2 (nil_response_without_error_panics
                    (GetMapObjectsResponse := reply) (GetPlayerResponse := reply)
                    GetErrorFromStatus w _ _))) Hrt).
Defined.

Lemma nil_location_never_reaches_the_transport_witness :
  let w := set_self {| location := None; url := ""; rpc := 2%positive;
                       provider := 1%positive; debug := true |}
                    (world0 guest [answer "abc123" 1 []]) in
  Announce reply GetErrorFromStatus w = Panic NilDereference w /\
  (exists w1, GetPlayer reply w = Panic NilDereference w1 /\ wire w1 = []) /\
  (exists w1, Init w = Panic NilDereference w1 /\ wire w1 = []).
Proof.
  intros w.
  assert (location (self w) = None) as Hl by reflexivity.
  destruct (nil_location_never_reaches_the_transport
              (GetMapObjectsResponse := reply) (GetPlayerResponse := reply)
              (GetInventoryResponse := reply) GetErrorFromStatus w Hl)
    as (Hannounce & _ & Hplayer & _ & Hinit).
  split; [exact Hannounce|]. split; [exact Hplayer|].
  destruct Hinit as [(e & w1 & Hfail & _)|Hpanic]; [|exact Hpanic].
  vm_compute in Hfail. discriminate Hfail.
Defined.

Lemma nil_provider_panics_before_anything_is_sent_witness :
  let w := set_providers ∅ (world0 guest [answer "abc123" 1 []]) in
  Init w = Panic NilDereference w /\
  GetPlayer reply w = Panic NilDereference w /\
  GetInventory reply w = Panic NilDereference w.
Proof.
  intros w.
  assert (providers w !! provider (self w) = None) as Hp by (vm_compute; reflexivity).
  destruct (nil_provider_panics_before_anything_is_sent
              (GetPlayerResponse := reply) (GetInventoryResponse := reply) w Hp)
    as (Hinit & _ & Hplayer & Hinventory).
  split; [exact Hinit|]. split; [exact Hplayer|exact Hinventory].
Defined.

Lemma after_Init_round_trips_go_to_the_bound_URL_witness :
  let w := world0 guest [answer "abc123" 1 []; answer "def456" 1 [[Byte.x01]]] in
  Init w = Done None (final (Init w)) /\
  (sent (GetPlayer reply (final (Init w)))).1 = "https://abc123/rpc".
Proof.
  intros w.
  pose (response := {| protos.ApiUrl := "abc123"; protos.ResponseEnvelope_StatusCode := 1;
                       protos.Returns := [] |}).
  assert (round_trip Init w (sent (Init w)).1 (sent (Init w)).2 (Some response, None))
    as Hrt by ran.
  assert (protos.ApiUrl response <> "") as Hurl by discriminate.
  destruct (after_Init_round_trips_go_to_the_bound_URL
              (GetMapObjectsResponse := reply) (GetPlayerResponse := reply)
              (GetInventoryResponse := reply) GetErrorFromStatus w _ _ response Hrt Hurl)
    as [Hinit Hlater].
  split; [exact Hinit|].
  assert (round_trip (GetPlayer reply) (final (Init w))
            (sent (GetPlayer reply (final (Init w)))).1
            (sent (GetPlayer reply (final (Init w)))).2
            (answer "def456" 1 [[Byte.x01]])) as Hplayer by ran.
  exact (Hlater (final (Init w)) _ _ _ eq_refl
           (or_intror (or_intror (or_intror (or_introl Hplayer))))).
Defined.

Lemma bound_session_stays_bound_witness :
  let w := final (Init (world0 guest [answer "abc123" 1 []; failure "timeout"])) in
  url (self w) = "https://abc123/rpc" /\
  url (self (final (Init w))) <> "" /\
  url (self (final (GetPlayer reply w))) <> "".
Proof.
  intros w.
  assert (url (self w) = "https://abc123/rpc") as Hurl by (vm_compute; reflexivity).
  assert (url (self w) <> "") as Hbound by (rewrite Hurl; discriminate).
  destruct (bound_session_stays_bound
              (GetMapObjectsResponse := reply) (GetPlayerResponse := reply)
              (GetInventoryResponse := reply) GetErrorFromStatus w Hbound)
    as (_ & Hinit & _ & Hplayer & _).
  split; [exact Hurl|]. split; [exact Hinit|exact Hplayer].
Defined.

Lemma debug_off_logs_nothing_witness :
  let w := world0 guest [answer "abc123" 1 [[Byte.x01]]] in
  stdlog (final (Init w)) = [] /\
  stdlog (final (Announce reply GetErrorFromStatus w)) = [].
Proof.
  intros w.
  assert (debug (self w) = false) as Hoff by reflexivity.
  destruct (debug_off_logs_nothing
              (GetMapObjectsResponse := reply) (GetPlayerResponse := reply)
              (GetInventoryResponse := reply) GetErrorFromStatus w Hoff)
    as (_ & Hinit & Hannounce & _).
  split; [exact Hinit|exact Hannounce].
Defined.

Lemma debug_on_logs_the_envelope_then_the_response_witness :
  let w := set_self (session0 true) (world0 guest [answer "abc123" 1 [[Byte.x01]]]) in
  stdlog (final (GetPlayer reply w)) =
    [LogRequest (sent (GetPlayer reply w)).2;
     LogResponse (Some {| protos.ApiUrl := "abc123"; protos.ResponseEnvelope_StatusCode := 1;
                          protos.Returns := [[Byte.x01]] |})].
Proof.
  intros w.
  assert (debug (self w) = true) as Hon by reflexivity.
  assert (round_trip (GetPlayer reply) w (sent (GetPlayer reply w)).1
            (sent (GetPlayer reply w)).2 (answer "abc123" 1 [[Byte.x01]])) as Hrt by ran.
  exact (proj1 (proj2 (proj2 (proj2 (debug_on_logs_the_envelope_then_the_response
           (GetMapObjectsResponse := reply) (GetInventoryResponse := reply)
           GetErrorFromStatus w _ _ _ Hon)))) Hrt).
Defined.

Lemma new_session_bootstraps_at_the_default_URL_witness :
  let w := world0 guest [answer "abc123" 1 []] in
  exists s w1,
    NewSession 1%positive (Some here) false w = Done s w1 /\
    rpc s = 3%positive /\
    exists env r,
      round_trip Init (set_self s w1) defaultURL env r /\
      r = (None, Some (Foreign "connection refused")).
Proof.
  intros w.
  assert (providers w !! 1%positive = Some guest) as Hp by (vm_compute; reflexivity).
  assert ((auth.Login guest).2.2 = None) as Hlogin by reflexivity.
  destruct (new_session_bootstraps_at_the_default_URL w 1%positive guest here false Hp Hlogin)
    as (s & w1 & Hnew & env & r & Hrt & Hr).
  exists s, w1. split; [exact Hnew|]. split.
  - vm_compute in Hnew. injection Hnew as <- _. reflexivity.
  - exists env, r. split; [exact Hrt|]. rewrite Hr. reflexivity.
Defined.

Lemma only_Init_logs_in_witness :
  let w := world0 guest [answer "abc123" 1 [[Byte.x01]]] in
  providers (final (GetPlayer reply w)) !! 1%positive = Some guest /\
  providers (final (Announce reply GetErrorFromStatus w)) !! 1%positive = Some guest /\
  providers (final (Init w)) !! 1%positive
    = Some {| refuses := None; token := "+"; logins := 1 |}.
Proof.
  intros w.
  assert (providers w !! provider (self w) = Some guest) as Hp by (vm_compute; reflexivity).
  assert (location (self w) = Some here) as Hl by reflexivity.
  destruct (only_Init_logs_in
              (GetMapObjectsResponse := reply) (GetPlayerResponse := reply)
              (GetInventoryResponse := reply) GetErrorFromStatus w guest here Hp Hl)
    as (_ & Hplayer & _ & Hannounce & Hinit).
  split; [by rewrite Hplayer|]. split; [by rewrite Hannounce|]. by rewrite Hinit.
Defined.

(** C10, as first stated, fails where it says that the caller receives the
    zero-valued message: on the payload [08 01 ff] the decoder sets
    [success] and then fails on the broken tag, and [GetPlayer] returns
    that message, which is not the zero message, with a nil error. *)
Lemma GetPlayer_returns_a_partly_decoded_message :
  let payload := [Byte.x08; Byte.x01; Byte.xff] in
  let w := world0 guest [answer "abc123" 1 [payload]] in
  let decoded := {| success := true; player_data := [] |} in
  proto.Unmarshal payload (proto.Zero : profile) = (decoded, Some (Foreign "unexpected EOF")) /\
  decoded <> proto.Zero /\
  exists w1, GetPlayer profile w = Done (Some decoded, None) w1.
Proof.
  intros payload w decoded. split; [vm_compute; reflexivity|]. split; [discriminate|].
  eexists. vm_compute. reflexivity.
Qed.
